(** * Colour-blind-safe palette extraction: a shallow embedding

    This development embeds [extract_colorblind_safe_palette] of
    [extract_colorblind_safe_palettes.py] and proves properties of it.

    Numbers.  Python and NumPy floats are binary64 values; every binary64
    value is a rational, so a float is a [Q] here and a float operation is
    the exact operation followed by the rounding [fl].  The rounding is a
    parameter of the development; the facts about it that proofs use
    (monotone, exact on small integers, small relative error, odd) are
    stated once, as section hypotheses, and hold of round-to-nearest.

    Libraries.  PIL, scikit-learn, scikit-image, numpy.linalg, matplotlib
    and [os.path] are not code of the script: their functions are section
    variables, and what a proof needs of their contracts is a hypothesis
    of that proof. *)

From Stdlib Require Import ZArith QArith Qabs Qround Lia Lqa List Bool Ascii String.
From Stdlib Require Import Sorted Permutation.
From Stdlib.Strings Require Import Byte.
From stdpp Require Import base option list gmap strings pretty.

Local Open Scope Z_scope.

(** ** Exceptions and results *)

Inductive exn : Type :=
  | FileNotFoundError
  | UnidentifiedImageError
  | ZeroDivisionError
  | OverflowError
  | ValueError
  | OSError
  | RuntimeError.

Inductive result (A : Type) : Type :=
  | Ok (a : A)
  | Raise (e : exn).
Arguments Ok {A} a.
Arguments Raise {A} e.

(** ** Numbers *)

(** [int(x)] on a float: truncation toward zero. *)
Definition trunc (x : Q) : Z := Z.quot (Qnum x) (Zpos (Qden x)).

(** [x < y] on floats, as a boolean. *)
Definition Qltb (x y : Q) : bool := negb (Qle_bool y x).

(** [np.rint]: the nearest integer, ties to the even one. *)
Definition rint (x : Q) : Z :=
  let f := Qfloor x in
  let d := (x - inject_Z f)%Q in
  if Qltb d (1 # 2) then f
  else if Qltb (1 # 2) d then f + 1
  else if Z.even f then f else f + 1.

(** The unit roundoff of binary64. *)
Definition eps : Q := 1 # (2 ^ 53).

(** The largest magnitude the error bound is used at. *)
Definition fl_range : Q := inject_Z (2 ^ 53).

(** The least magnitude that rounds beyond the largest binary64 value:
    Python's [int / int] raises [OverflowError] from there on. *)
Definition float_overflow_int : Z := 2 ^ 1024 - 2 ^ 970.

Definition float_overflow : Q := inject_Z float_overflow_int.

(** ** Colours, images, palette entries *)

(** A colour with float channels: a pixel or centroid in [[0,1]], or a
    point of Lab space. *)
Definition color : Type := (Q * Q * Q)%type.

(** An 8-bit RGB image as [Image.open(...).convert("RGB")] gives it:
    [img.size] is [(img_w, img_h)], the pixels are in row-major order. *)
Record image : Type := {
  img_w : Z;
  img_h : Z;
  img_data : list (byte * byte * byte)
}.

(** A channel of a pixel as a number, 0 to 255. *)
Definition channel (b : byte) : Z := Z.of_N (Byte.to_N b).

(** One dictionary of [results]. *)
Record entry : Type := {
  hex : string;
  rgb : Z * Z * Z;
  frequency : Q;
  colorblind_safe : bool
}.

(** The three matrices of [CB_MATRICES], rows first, in the order the
    dictionary holds them. *)
Definition matrix : Type := (color * color * color)%type.

Definition protanopia : matrix :=
  ((56667 # 100000, 43333 # 100000, 0),
   (55833 # 100000, 44167 # 100000, 0),
   (0, 24167 # 100000, 75833 # 100000))%Q.

Definition deuteranopia : matrix :=
  ((625 # 1000, 375 # 1000, 0),
   (70 # 100, 30 # 100, 0),
   (0, 30 # 100, 70 # 100))%Q.

Definition tritanopia : matrix :=
  ((95 # 100, 5 # 100, 0),
   (0, 43333 # 100000, 56667 # 100000),
   (0, 475 # 1000, 525 # 1000))%Q.

Definition CB_MATRICES : list (string * matrix) :=
  [("protanopia"%string, protanopia);
   ("deuteranopia"%string, deuteranopia);
   ("tritanopia"%string, tritanopia)].

(** [CB_MATRICES.values()] *)
Definition CB_values : list matrix := map snd CB_MATRICES.

(** ** Formatting *)

Definition hex_digit (d : Z) : ascii :=
  match d with
  | 0 => "0" | 1 => "1" | 2 => "2" | 3 => "3" | 4 => "4" | 5 => "5"
  | 6 => "6" | 7 => "7" | 8 => "8" | 9 => "9" | 10 => "A" | 11 => "B"
  | 12 => "C" | 13 => "D" | 14 => "E" | _ => "F"
  end%char.

(** The uppercase hexadecimal digits of a positive number, most
    significant first, in front of [acc]. *)
Fixpoint hex_of_pos (fuel : nat) (n : Z) (acc : string) : string :=
  match fuel with
  | O => acc
  | S fuel' =>
      let acc' := String (hex_digit (n mod 16)) acc in
      if n / 16 =? 0 then acc' else hex_of_pos fuel' (n / 16) acc'
  end.

Definition hex_upper (n : Z) : string :=
  hex_of_pos (S (Z.to_nat (Z.log2 n))) n EmptyString.

Fixpoint zeros (n : nat) : string :=
  match n with O => EmptyString | S n' => String "0"%char (zeros n') end.

(** ["{:02X}".format(z)]: uppercase hexadecimal, the sign first, zeros
    after the sign up to a total width of two. *)
Definition fmt_02X (z : Z) : string :=
  let digits := hex_upper (Z.abs z) in
  let sign := if z <? 0 then "-"%string else EmptyString in
  let pad := (2 - String.length sign - String.length digits)%nat in
  (sign ++ zeros pad ++ digits)%string.

(** The format ["#{:02X}{:02X}{:02X}"] applied to the three channels of
    [rgb255]. *)
Definition hexcol (c : Z * Z * Z) : string :=
  let '(r, g, b) := c in
  ("#" ++ fmt_02X r ++ fmt_02X g ++ fmt_02X b)%string.

(** [s.ljust(n)] and [s.rjust(n)], the paddings of [{:<n}] and [{:>n}]. *)
Fixpoint spaces (n : nat) : string :=
  match n with O => EmptyString | S n' => String " "%char (spaces n') end.

Definition ljust (n : nat) (s : string) : string :=
  (s ++ spaces (n - String.length s))%string.

Definition rjust (n : nat) (s : string) : string :=
  (spaces (n - String.length s) ++ s)%string.

(** Reading a colour back from its ["#RRGGBB"] form. *)
Definition hex_value (a : ascii) : option Z :=
  let n := Z.of_N (N_of_ascii a) in
  if (48 <=? n) && (n <=? 57) then Some (n - 48)
  else if (65 <=? n) && (n <=? 70) then Some (n - 55)
  else None.

Definition hex_pair (a b : ascii) : option Z :=
  match hex_value a, hex_value b with
  | Some x, Some y => Some (16 * x + y)
  | _, _ => None
  end.

Definition is_upper_hex (a : ascii) : bool :=
  match hex_value a with Some _ => true | None => false end.

(** The pattern of a colour code: [#] and six uppercase hexadecimal
    digits. *)
Definition hex_shape (s : string) : bool :=
  match s with
  | String "#" digits =>
      Nat.eqb (String.length digits) 6
      && forallb is_upper_hex (list_ascii_of_string digits)
  | _ => false
  end.

Definition hex_decode (s : string) : option (Z * Z * Z) :=
  match s with
  | String "#" (String r1 (String r0 (String g1 (String g0
      (String b1 (String b0 EmptyString)))))) =>
      match hex_pair r1 r0, hex_pair g1 g0, hex_pair b1 b0 with
      | Some r, Some g, Some b => Some (r, g, b)
      | _, _, _ => None
      end
  | _ => None
  end.

(** ** The world the script runs in *)

(** What [plt] is asked to draw: the image of the left panel and, for the
    right panel, one bar per palette entry with its position, its colour
    and its label. *)
Record figure : Type := {
  fig_image : image;
  fig_bars : list (nat * string * string)
}.

Inductive file : Type :=
  | ImageFile (img : image)
  | TextFile (content : string)
  | FigureFile (fig : figure)
  | OtherFile.

(** The file system (with the paths that can be opened for writing), the
    console and the figures shown so far. *)
Record world : Type := {
  fs : gmap string file;
  writable : string -> bool;
  stdout : list string;
  shown : list figure
}.

(** Computations that read and change the world and may raise: the world
    at the time of the exception is kept. *)
Definition M (A : Type) : Type := world -> result A * world.

Definition ret {A} (a : A) : M A := fun w => (Ok a, w).

Definition raise {A} (e : exn) : M A := fun w => (Raise e, w).

Definition bind {A B} (m : M A) (k : A -> M B) : M B :=
  fun w =>
    match m w with
    | (Ok a, w') => k a w'
    | (Raise e, w') => (Raise e, w')
    end.

Definition lift {A} (r : result A) : M A := fun w => (r, w).

Notation "x <- m ;; k" := (bind m (fun x => k))
  (at level 100, m at next level, right associativity).
Notation "m ;;; k" := (bind m (fun _ => k))
  (at level 100, right associativity).

Definition when (b : bool) (m : M unit) : M unit :=
  if b then m else ret tt.

(** [Image.open(path).convert("RGB")] *)
Definition image_open (path : string) : M image :=
  fun w =>
    match fs w !! path with
    | None => (Raise FileNotFoundError, w)
    | Some (ImageFile img) => (Ok img, w)
    | Some _ => (Raise UnidentifiedImageError, w)
    end.

(** Opening [path] for writing and storing [f] there. *)
Definition write_file (path : string) (f : file) : M unit :=
  fun w =>
    if writable w path
    then (Ok tt, {| fs := <[path := f]> (fs w); writable := writable w;
                    stdout := stdout w; shown := shown w |})
    else (Raise OSError, w).

(** [print(s)] *)
Definition print (s : string) : M unit :=
  fun w => (Ok tt, {| fs := fs w; writable := writable w;
                      stdout := stdout w ++ [s]; shown := shown w |}).

(** [plt.show()] *)
Definition plt_show (fig : figure) : M unit :=
  fun w => (Ok tt, {| fs := fs w; writable := writable w;
                      stdout := stdout w; shown := shown w ++ [fig] |}).

(** The arguments of [extract_colorblind_safe_palette]. *)
Record args : Type := {
  image_path : string;
  n_colors : nat;
  deltaE_thresh : Q;
  resize : Q;
  plot : bool;
  save : bool;
  outdir : option string
}.

(** The defaults of the signature. *)
Definition default_args (path : string) : args :=
  {| image_path := path; n_colors := 5; deltaE_thresh := 10;
     resize := 400; plot := true; save := true; outdir := None |}.

(** ** Containers *)

(** [Counter(labels)]: a dictionary from a label to the number of its
    occurrences; a label that does not occur has no key. *)
Definition Counter (labels : list nat) : gmap nat nat :=
  foldr (fun l (m : gmap nat nat) => <[l := S (default 0%nat (m !! l))]> m)
        ∅ labels.

(** [counts[i]] on a [Counter]: a missing key counts zero. *)
Definition counter_get (counts : gmap nat nat) (i : nat) : nat :=
  default 0%nat (counts !! i).

(** [zip] of three lists: as long as the shortest. *)
Fixpoint zip3 {A B C} (l1 : list A) (l2 : list B) (l3 : list C)
  : list (A * B * C) :=
  match l1, l2, l3 with
  | a :: l1', b :: l2', c :: l3' => (a, b, c) :: zip3 l1' l2' l3'
  | _, _, _ => []
  end.

(** [results.sort(key=...)]: Python's sort is stable; this is the
    insertion sort that keeps equal keys in their order. *)
Fixpoint insert_by {A} (key : A -> Q) (x : A) (l : list A) : list A :=
  match l with
  | [] => [x]
  | y :: l' =>
      if Qle_bool (key x) (key y) then x :: y :: l'
      else y :: insert_by key x l'
  end.

Definition sort_by {A} (key : A -> Q) (l : list A) : list A :=
  foldr (insert_by key) [] l.

(** [sep.join(l)] *)
Fixpoint join (sep : string) (l : list string) : string :=
  match l with
  | [] => EmptyString
  | [s] => s
  | s :: l' => (s ++ sep ++ join sep l')%string
  end.

(** The newline character. *)
Definition nl : string := String (ascii_of_nat 10) EmptyString.

(** The fixed rows of the table. *)
Definition table_head : string :=
  ("┏━━━━━━━━━━┳━━━━━━━━━━━━━━━━━┳━━━━━━━━━━┳━━━━━━━━━━━━━━━━━━━━┓" ++ nl ++
   "┃ Hex      ┃ RGB             ┃ Freq (%) ┃ Color-Blind Safe?  ┃" ++ nl ++
   "┡━━━━━━━━━━╇━━━━━━━━━━━━━━━━━╇━━━━━━━━━━╇━━━━━━━━━━━━━━━━━━━━┩" ++ nl)%string.

Definition table_foot : string :=
  ("└──────────┴─────────────────┴──────────┴────────────────────┘" ++ nl)%string.

(** * A concrete instance

    Stand-ins for the rounding and the libraries, simple enough to run:
    the theorems below are stated for any rounding and any libraries that
    meet the hypotheses, and are exercised on these. *)

(** Rounding that changes nothing. *)
Definition exact_fl (x : Q) : Q := x.

(** Round-to-nearest, ties to even, to 53 significant bits: binary64
    without overflow and underflow. *)
Definition binary64 (x : Q) : Q :=
  if Qeq_bool x 0 then 0%Q
  else
    let a := Qabs x in
    let e0 := Z.log2 (Qnum a) - Z.log2 (Zpos (Qden a)) in
    let e := if Qltb a (Qpower 2 e0) then e0 - 1 else e0 in
    let ulp := Qpower 2 (e - 52) in
    let m := inject_Z (rint (a / ulp)) in
    Qred (if Qltb x 0 then - (m * ulp) else m * ulp)%Q.

(** A resize that keeps the first pixels. *)
Definition crop_resize (img : image) (size : Z * Z) : result image :=
  Ok {| img_w := fst size;
        img_h := snd size;
        img_data := firstn (Z.to_nat (fst size * snd size)) (img_data img) |}.

(** A clustering that takes the first [n] samples as centres and deals
    the samples round-robin; like [KMeans] it refuses no cluster and
    fewer samples than clusters. *)
Definition round_robin_clusters (n n_init : nat) (seed : Z)
  (pixels : list color) : result (list nat * list color) :=
  if (Nat.leb 1 n && Nat.leb n (length pixels))%bool
  then Ok (map (fun k => Nat.modulo k n) (seq 0 (length pixels)),
           firstn n pixels)
  else Raise ValueError.

(** A linear map in place of the Lab conversion. *)
Definition linear_lab (c : color) : color :=
  let '(r, g, b) := c in
  (100 * g, 100 * (r - g), 100 * (g - b))%Q.

(** The taxicab norm. *)
Definition taxicab_norm (v : color) : Q :=
  let '(x, y, z) := v in (Qabs x + Qabs y + Qabs z)%Q.

Definition same_path (p : string) : string := p.
Definition here (p : string) : string := ".".
Definition slash_join (d f : string) : string := (d ++ "/" ++ f)%string.
Definition no_rgb_text (c : Z * Z * Z) : string := "".
Definition no_float_text (f : Q) : string := "".
Definition draw_ok (fig : figure) : result unit := Ok tt.
Definition draw_fails (fig : figure) : result unit := Raise RuntimeError.

Definition red : byte * byte * byte := (xff, x00, x00).
Definition blue : byte * byte * byte := (x00, x00, xff).
Definition black : byte * byte * byte := (x00, x00, x00).

(** A 2 x 2 image of red and blue pixels, and a black one. *)
Definition two_tone : image :=
  {| img_w := 2; img_h := 2; img_data := [red; blue; red; blue] |}.

Definition all_black : image :=
  {| img_w := 2; img_h := 2; img_data := [black; black; black; black] |}.



(** A disk that holds one image, where every path can be written, and one
    where the figure's path cannot. *)
Definition disk (img : image) : world :=
  {| fs := {[ "flower.jpg"%string := ImageFile img ]};
     writable := fun p => true;
     stdout := [];
     shown := [] |}.

Definition locked_disk (img : image) : world :=
  {| fs := {[ "flower.jpg"%string := ImageFile img ]};
     writable := fun p => negb (String.eqb p "./flower.jpg_palette.png");
     stdout := [];
     shown := [] |}.

Definition quiet_args (n : nat) (thresh : Q) : args :=
  {| image_path := "flower.jpg"; n_colors := n; deltaE_thresh := thresh;
     resize := 400; plot := false; save := false; outdir := None |}.

Definition loud_args (n : nat) (thresh : Q) : args :=
  {| image_path := "flower.jpg"; n_colors := n; deltaE_thresh := thresh;
     resize := 400; plot := true; save := true; outdir := None |}.

(** * The script *)

Section Script.

(** Rounding to the nearest binary64 value. *)
Variable fl : Q -> Q.

(** The resampling of [PIL.Image.resize] at a size with positive sides:
    the image at the requested size, or an error. *)
Variable pil_resize : image -> Z * Z -> result image.

(** [KMeans(n_clusters, n_init, random_state).fit_predict(pixels)] with
    [cluster_centers_]: the labels and the centres.  The random state is an
    argument: with the same arguments the library returns the same
    clustering. *)
Variable kmeans_fit_predict :
  nat -> nat -> Z -> list color -> result (list nat * list color).

(** [skimage.color.rgb2lab], which converts each pixel on its own. *)
Variable rgb2lab : color -> color.

(** [np.linalg.norm] on a vector of three floats. *)
Variable linalg_norm : color -> Q.

(** [os.path.basename], [os.path.dirname], [os.path.splitext] (its first
    component) and [os.path.join]. *)
Variable path_basename : string -> string.
Variable path_dirname : string -> string.
Variable path_splitext_root : string -> string.
Variable path_join : string -> string -> string.

(** [str] of the tuple of channels and of a frequency, as the f-string of
    a table row prints them. *)
Variable str_rgb : Z * Z * Z -> string.
Variable str_float : Q -> string.

(** What [plt.subplots], [imshow], [barh], [text] and [tight_layout] do
    with the figure the script describes: nothing the script reads back,
    or an exception. *)
Variable plt_draw : figure -> result unit.

(** ** Float operations *)

Definition fadd (x y : Q) : Q := fl (x + y).
Definition fsub (x y : Q) : Q := fl (x - y).
Definition fmul (x y : Q) : Q := fl (x * y).
Definition fdiv (x y : Q) : Q := fl (x / y).

(** ** Output paths *)

Definition out_dir (a : args) : string :=
  match outdir a with
  | None => path_dirname (image_path a)
  | Some d => d
  end.

Definition base (a : args) : string :=
  path_splitext_root (path_basename (image_path a)).

Definition fig_path (a : args) : string :=
  path_join (out_dir a) (base a ++ "_palette.png").

Definition txt_path (a : args) : string :=
  path_join (out_dir a) (base a ++ "_palette.txt").

(** ** Load and preprocess *)

(** The size passed to [img.resize], when the image is resized at all:
    [scale = resize / max(w, h)], and if [scale < 1] the size
    [(int(w * scale), int(h * scale))].  The division raises on a zero
    divisor and on a quotient beyond the float range (which only an
    integer [resize] can reach); [w] and [h], the sides of a PIL image,
    are machine integers. *)
Definition scaled_size (w h : Z) (rs : Q) : result (option (Z * Z)) :=
  if Z.max w h =? 0 then Raise ZeroDivisionError
  else if Qle_bool float_overflow (Qabs (rs / inject_Z (Z.max w h)))
  then Raise OverflowError
  else
    let scale := fdiv rs (inject_Z (Z.max w h)) in
    if Qltb scale 1
    then Ok (Some (trunc (fmul (inject_Z w) scale),
                   trunc (fmul (inject_Z h) scale)))
    else Ok None.

(** [img.resize(size)]: PIL refuses a size with a side that is not
    positive ([ValueError: height and width must be > 0]); otherwise the
    library resamples. *)
Definition img_resize (img : image) (size : Z * Z) : result image :=
  if (0 <? fst size) && (0 <? snd size) then pil_resize img size
  else Raise ValueError.

Definition preprocess (img : image) (rs : Q) : result image :=
  match scaled_size (img_w img) (img_h img) rs with
  | Raise e => Raise e
  | Ok None => Ok img
  | Ok (Some size) => img_resize img size
  end.

(** [np.asarray(img).reshape(-1, 3) / 255.0] *)
Definition pixels_of (img : image) : list color :=
  map (fun '(r, g, b) =>
         (fdiv (inject_Z (channel r)) 255, fdiv (inject_Z (channel g)) 255,
          fdiv (inject_Z (channel b)) 255))
      (img_data img).

(** ** Frequencies *)

(** [np.array([counts[i] for i in range(n_colors)])] *)
Definition cluster_counts (labels : list nat) (n : nat) : list nat :=
  map (counter_get (Counter labels)) (seq 0 n).

(** [freqs / freqs.sum() * 100].  (On an empty sum NumPy gives NaN; the
    clustering raises before that on an image without pixels.) *)
Definition percentages (counts : list nat) : list Q :=
  let total := inject_Z (Z.of_nat (foldr Nat.add 0%nat counts)) in
  map (fun c => fmul (fdiv (inject_Z (Z.of_nat c)) total) 100) counts.

(** [round(f, 1)] on a NumPy float: [rint(f * 10) / 10]. *)
Definition round1 (f : Q) : Q :=
  fdiv (inject_Z (rint (fmul f 10))) 10.

(** ** Colour-blind safety *)

(** One component of [rgb @ matrix.T]: the product of the colour with a
    row of the matrix, each product and sum rounded. *)
Definition dot (c row : color) : Q :=
  let '(r, g, b) := c in
  let '(m0, m1, m2) := row in
  fadd (fadd (fmul r m0) (fmul g m1)) (fmul b m2).

(** [np.clip(x, 0, 1)] *)
Definition clip01 (x : Q) : Q :=
  if Qltb x 0 then 0%Q else if Qltb 1 x then 1%Q else x.

(** [simulate_cb(rgb, matrix) = np.clip(rgb @ matrix.T, 0, 1)] *)
Definition simulate_cb (c : color) (mat : matrix) : color :=
  let '(row0, row1, row2) := mat in
  (clip01 (dot c row0), clip01 (dot c row1), clip01 (dot c row2)).

(** [sim_lab] for one matrix. *)
Definition sim_lab_of (colors : list color) (mat : matrix) : list color :=
  map rgb2lab (map (fun c => simulate_cb c mat) colors).

Definition vsub (a b : color) : color :=
  let '(a0, a1, a2) := a in
  let '(b0, b1, b2) := b in
  (fsub a0 b0, fsub a1 b1, fsub a2 b2).

(** [sim_lab[i]]; the loops only use indices below [len(sim_lab)]. *)
Definition row (sim_lab : list color) (i : nat) : color :=
  nth i sim_lab (0, 0, 0)%Q.

(** [dE = np.linalg.norm(sim_lab[i] - sim_lab[j])] *)
Definition deltaE (sim_lab : list color) (i j : nat) : Q :=
  linalg_norm (vsub (row sim_lab i) (row sim_lab j)).

(** The loop over [j]: the value of [is_safe] when it ends, by running
    through or by [break]. *)
Fixpoint scan_others (sim_lab : list color) (thresh : Q) (i : nat)
  (js : list nat) : bool :=
  match js with
  | [] => true
  | j :: js' =>
      if negb (Nat.eqb i j) && Qltb (deltaE sim_lab i j) thresh
      then false
      else scan_others sim_lab thresh i js'
  end.

(** The loop over the matrices: it stops at the first matrix whose inner
    loop cleared [is_safe]. *)
Fixpoint scan_models (colors : list color) (thresh : Q) (i : nat)
  (mats : list matrix) : bool :=
  match mats with
  | [] => true
  | mat :: mats' =>
      let sim_lab := sim_lab_of colors mat in
      if scan_others sim_lab thresh i (seq 0 (length sim_lab))
      then scan_models colors thresh i mats'
      else false
  end.

Definition safe_flags (colors : list color) (thresh : Q) : list bool :=
  map (fun i => scan_models colors thresh i CB_values)
      (seq 0 (length colors)).

(** ** Results *)

(** [tuple((rgb * 255).astype(int))] *)
Definition rgb255_of (c : color) : Z * Z * Z :=
  let '(r, g, b) := c in
  (trunc (fmul r 255), trunc (fmul g 255), trunc (fmul b 255)).

Definition make_entry (x : color * Q * bool) : entry :=
  let '(c, f, safe) := x in
  {| hex := hexcol (rgb255_of c);
     rgb := rgb255_of c;
     frequency := round1 f;
     colorblind_safe := safe |}.

(** The list [results] as the loop over [zip(colors, freqs, safe_flags)]
    builds it: the entry of cluster [i] is at index [i]. *)
Definition results_unsorted (colors : list color) (labels : list nat)
  (n : nat) (thresh : Q) : list entry :=
  let freqs := percentages (cluster_counts labels n) in
  let flags := safe_flags colors thresh in
  map make_entry (zip3 colors freqs flags).

(** The list [results] after [results.sort(key=lambda x: -x["frequency"])]. *)
Definition palette (colors : list color) (labels : list nat) (n : nat)
  (thresh : Q) : list entry :=
  sort_by (fun e => (- frequency e)%Q)
          (results_unsorted colors labels n thresh).

(** ** The report *)

Definition table_row (r : entry) : string :=
  let flag := if colorblind_safe r then "YES"%string else "NO"%string in
  ("│ " ++ ljust 8 (hex r) ++ " │ " ++ ljust 15 (str_rgb (rgb r)) ++ " │ "
   ++ rjust 6 (str_float (frequency r)) ++ "% │ " ++ ljust 18 flag
   ++ " │" ++ nl)%string.

Definition summary_lines (a : args) (results : list entry) : list string :=
  let header :=
    (" Extracted " ++ pretty (n_colors a) ++ " colors from "
     ++ image_path a ++ nl)%string in
  [header; table_head] ++ map table_row results ++ [table_foot].

Definition bar_label (r : entry) : string :=
  (hex r ++ " " ++ (if colorblind_safe r then "✓" else "✗"))%string.

(** The figure of the two panels: [imshow(img_np)] and one [barh] and one
    [text] per entry of [enumerate(results)]. *)
Definition palette_figure (img : image) (results : list entry) : figure :=
  {| fig_image := img;
     fig_bars := imap (fun i r => (i, hex r, bar_label r)) results |}.

Definition report (a : args) (img : image) (results : list entry) : M unit :=
  let lines := summary_lines a results in
  print (join nl lines) ;;;
  when (save a) (write_file (txt_path a) (TextFile (String.concat "" lines))) ;;;
  when (plot a)
    (let fig := palette_figure img results in
     lift (plt_draw fig) ;;;
     when (save a) (write_file (fig_path a) (FigureFile fig)) ;;;
     plt_show fig).

(** ** The function *)

Definition extract_colorblind_safe_palette (a : args) : M (list entry) :=
  img0 <- image_open (image_path a) ;;
  img <- lift (preprocess img0 (resize a)) ;;
  km <- lift (kmeans_fit_predict (n_colors a) 10 42 (pixels_of img)) ;;
  let results := palette (snd km) (fst km) (n_colors a) (deltaE_thresh a) in
  report a img results ;;;
  ret results.

(** ** Notions the statements use *)

(** A colour with its channels in [[0,1]]. *)
Definition in_unit (c : color) : Prop :=
  (0 <= fst (fst c) <= 1 /\ 0 <= snd (fst c) <= 1 /\ 0 <= snd c <= 1)%Q.

(** A channel within [1/256] of [[0,1]], and a colour of such channels. *)
Definition near_01 (x : Q) : Prop := (- (1 # 256) <= x <= 1 + (1 # 256))%Q.

Definition near_unit (c : color) : Prop :=
  near_01 (fst (fst c)) /\ near_01 (snd (fst c)) /\ near_01 (snd c).

Definition byte_range (z : Z) : Prop := 0 <= z <= 255.

Definition rgb_in_range (c : Z * Z * Z) : Prop :=
  byte_range (fst (fst c)) /\ byte_range (snd (fst c)) /\ byte_range (snd c).

(** One channel: two uppercase hexadecimal digits that read back as the
    channel. *)
Definition channel_code_ok (z : Z) : bool :=
  match fmt_02X z with
  | String a (String b EmptyString) =>
      is_upper_hex a && is_upper_hex b
      && match hex_pair a b with Some v => v =? z | None => false end
  | _ => false
  end.


Definition color_eq (a b : color) : Prop :=
  (fst (fst a) == fst (fst b) /\ snd (fst a) == snd (fst b)
   /\ snd a == snd b)%Q.

Definition vneg (a : color) : color :=
  (- fst (fst a), - snd (fst a), - snd a)%Q.

(** The percentage of a count [c] out of [total], as the script computes
    it. *)
Definition pct (total : Q) (c : nat) : Q :=
  fmul (fdiv (inject_Z (Z.of_nat c)) total) 100.

Definition total (counts : list nat) : nat := foldr Nat.add 0%nat counts.

Definition Qsum (l : list Q) : Q := foldr Qplus 0%Q l.

Definition descending (l : list entry) : Prop :=
  StronglySorted (fun e1 e2 => (frequency e2 <= frequency e1)%Q) l.

(** The arguments [a] with other [save] and [plot] settings. *)
Definition with_flags (a : args) (s p : bool) : args :=
  {| image_path := image_path a; n_colors := n_colors a;
     deltaE_thresh := deltaE_thresh a; resize := resize a;
     plot := p; save := s; outdir := outdir a |}.

(** The text that [f.writelines(lines)] stores. *)
Definition summary_text (a : args) (results : list entry) : file :=
  TextFile (String.concat "" (summary_lines a results)).

(** The files after a report that went through: the text file when
    [save] is on, then the figure when [plot] is on as well. *)
Definition written (a : args) (img : image) (results : list entry)
  (files : gmap string file) : gmap string file :=
  let files1 :=
    if save a then <[txt_path a := summary_text a results]> files
    else files in
  if save a && plot a
  then <[fig_path a := FigureFile (palette_figure img results)]> files1
  else files1.

(** An image without pixels, and a disk where no path can be written. *)
Definition empty_image : image :=
  {| img_w := 0; img_h := 0; img_data := [] |}.

Definition read_only_disk (img : image) : world :=
  {| fs := {[ "flower.jpg"%string := ImageFile img ]};
     writable := fun p => false;
     stdout := [];
     shown := [] |}.

(** An entry whose three texts fit their columns of the table. *)
Definition fits_columns (r : entry) : Prop :=
  (String.length (hex r) <= 8)%nat /\
  (String.length (str_rgb (rgb r)) <= 15)%nat /\
  (String.length (str_float (frequency r)) <= 6)%nat.

(** * Properties *)

(** ** What the proofs use of binary64 rounding

    Round-to-nearest is monotone, leaves the integers up to [2^53] as they
    are, is odd, and is off by at most [2^-53 |x|] in the normal range and
    by at most [2^-1075] below it, hence by at most [eps * (|x| + 1)]. *)
Hypothesis fl_proper : forall x y : Q, (x == y)%Q -> (fl x == fl y)%Q.
Hypothesis fl_mono : forall x y : Q, (x <= y)%Q -> (fl x <= fl y)%Q.
Hypothesis fl_int :
  forall z : Z, Z.abs z <= 2 ^ 53 -> (fl (inject_Z z) == inject_Z z)%Q.
Hypothesis fl_err :
  forall x : Q, (Qabs x <= fl_range)%Q ->
    (Qabs (fl x - x) <= eps * (Qabs x + 1))%Q.
Hypothesis fl_odd : forall x : Q, (fl (- x) == - fl x)%Q.

(** ** Truncation and rounding to an integer *)

Lemma trunc_nonneg (x : Q) : (0 <= x)%Q -> trunc x = Qfloor x.
Proof.
  destruct x as [n d]. unfold Qle, trunc, Qfloor. simpl. intros H.
  apply Z.quot_div_nonneg; lia.
Qed.


Lemma trunc_floor_bounds (x : Q) (lo hi : Z) :
  (0 <= x)%Q -> (inject_Z lo <= x)%Q -> (x < inject_Z (hi + 1))%Q ->
  lo <= trunc x <= hi.
Proof.
  intros H0 Hlo Hhi. rewrite trunc_nonneg by assumption. split.
  - apply Qfloor_resp_le in Hlo. now rewrite Qfloor_Z in Hlo.
  - assert (H : (inject_Z (Qfloor x) < inject_Z (hi + 1))%Q).
    { eapply Qle_lt_trans; [apply Qfloor_le | exact Hhi]. }
    rewrite <- Zlt_Qlt in H. lia.
Qed.


(** ** Rounding *)

Lemma fl_0 : (fl 0 == 0)%Q.
Proof. apply (fl_int 0). simpl. lia. Qed.

Lemma fl_1 : (fl 1 == 1)%Q.
Proof. apply (fl_int 1). simpl. lia. Qed.

Lemma fl_nonneg (x : Q) : (0 <= x)%Q -> (0 <= fl x)%Q.
Proof. intros H. rewrite <- fl_0. now apply fl_mono. Qed.

Lemma fl_near (x b : Q) :
  (0 <= x)%Q -> (x <= b)%Q -> (b <= fl_range)%Q ->
  (x - eps * (b + 1) <= fl x /\ fl x <= x + eps * (b + 1))%Q.
Proof.
  intros H0 Hb Hr.
  assert (He : (Qabs (fl x - x) <= eps * (Qabs x + 1))%Q).
  { apply fl_err. rewrite Qabs_pos by assumption. lra. }
  rewrite (Qabs_pos x) in He by assumption.
  apply Qabs_Qle_condition in He. destruct He as [He1 He2].
  assert (Heps : (0 <= eps)%Q) by (unfold eps, Qle; simpl; lia).
  assert (Hm : (eps * (x + 1) <= eps * (b + 1))%Q).
  { generalize dependent eps. intros e **. nra. }
  split; lra.
Qed.

(** ** The resize arithmetic *)

(** With [s = fl (R / M)] the scale, a dimension [D <= M] becomes
    [fl (D * s)], which is within [2^-20] of the exact [D * R / M]. *)
Lemma scaled_dim_close (D M R : Q) :
  (1 <= D)%Q -> (D <= M)%Q -> (M <= 2147483648)%Q ->
  (1 <= R)%Q -> (R <= 2147483648)%Q ->
  (0 <= fdiv R M)%Q /\
  (D * (R / M) - (1 # 1048576) <= fmul D (fdiv R M))%Q /\
  (fmul D (fdiv R M) <= D * (R / M) + (1 # 1048576))%Q.
Proof.
  intros HD HDM HM HR1 HR. unfold fmul, fdiv.
  set (q := (R / M)%Q).
  assert (Hq : (q * M == R)%Q) by (unfold q; field; lra).
  assert (Hq0 : (0 <= q)%Q) by nra.
  assert (HqR : (q <= R)%Q) by nra.
  clearbody q.
  assert (Hrange : (2147483648 <= fl_range)%Q)
    by (unfold fl_range, Qle; simpl; lia).
  destruct (fl_near q 2147483648) as [Hs1 Hs2]; try lra.
  assert (Heps : (eps * (2147483648 + 1) <= 1 # 2097152)%Q)
    by (unfold eps, Qle; simpl; lia).
  assert (Heps0 : (0 <= eps)%Q) by (unfold eps, Qle; simpl; lia).
  assert (Hs0 : (0 <= fl q)%Q) by now apply fl_nonneg.
  (* the tight bound on [s - q], from the relative error *)
  assert (He : (Qabs (fl q - q) <= eps * (Qabs q + 1))%Q).
  { apply fl_err. rewrite Qabs_pos by assumption. lra. }
  rewrite (Qabs_pos q) in He by assumption.
  apply Qabs_Qle_condition in He. destruct He as [He1 He2].
  set (s := fl q) in *. clearbody s.
  (* [D * |s - q| <= eps * (R + M)] *)
  assert (Hprod : (D * q <= R)%Q) by nra.
  assert (Heps2 : (eps * 4294967296 <= 1 # 2097152)%Q)
    by (unfold eps, Qle; simpl; lia).
  assert (Hd1 : (D * q - eps * (R + M) <= D * s)%Q).
  { generalize dependent eps. intros e **. nra. }
  assert (Hd2 : (D * s <= D * q + eps * (R + M))%Q).
  { generalize dependent eps. intros e **. nra. }
  assert (HRM : (eps * (R + M) <= 1 # 2097152)%Q).
  { generalize dependent eps. intros e **. nra. }
  assert (HDs0 : (0 <= D * s)%Q) by nra.
  assert (Heps3 : (eps * (2147483649 + 1) <= 1 # 2097152)%Q)
    by (unfold eps, Qle; simpl; lia).
  assert (Hrange2 : (2147483649 <= fl_range)%Q)
    by (unfold fl_range, Qle; simpl; lia).
  destruct (fl_near (D * s) 2147483649) as [Hy1 Hy2]; lra.
Qed.

Lemma Qltb_lt (x y : Q) : Qltb x y = true <-> (x < y)%Q.
Proof.
  unfold Qltb. rewrite negb_true_iff, <- not_true_iff_false, Qle_bool_iff.
  split; [apply Qnot_le_lt | apply Qlt_not_le].
Qed.

Lemma Qltb_ge (x y : Q) : Qltb x y = false <-> (y <= x)%Q.
Proof.
  unfold Qltb. now rewrite negb_false_iff, Qle_bool_iff.
Qed.


(** A target at least one pixel below the longer side gives a scale
    below one. *)
Lemma scale_lt_1 (M R : Q) :
  (1 <= R)%Q -> (R + 1 <= M)%Q -> (M <= 2147483648)%Q ->
  Qltb (fdiv R M) 1 = true.
Proof.
  intros HR HRM HM. apply Qltb_lt. unfold fdiv.
  set (q := (R / M)%Q).
  assert (Hq : (q * M == R)%Q) by (unfold q; field; lra).
  assert (Hq0 : (0 <= q)%Q) by nra.
  assert (Hq1 : (q <= 1 - (1 # 2147483648))%Q) by nra.
  clearbody q.
  assert (Hrange : (1 <= fl_range)%Q) by (unfold fl_range, Qle; simpl; lia).
  destruct (fl_near q 1) as [_ Hs]; try lra.
  assert (Heps : (eps * (1 + 1) < 1 # 2147483648)%Q)
    by (unfold eps, Qlt; simpl; lia).
  lra.
Qed.

(** One side [d] of an image whose longer side [m] exceeds the target
    [r]: the new side is not longer, is within a pixel of the proportional
    value, and for the longer side itself is [r] or [r - 1]. *)
Lemma scaled_dim_bounds (d m r : Z) :
  1 <= d <= m -> m <= 2147483648 -> 1 <= r < m ->
  let d' := trunc (fmul (inject_Z d) (fdiv (inject_Z r) (inject_Z m))) in
  0 <= d' <= d /\
  (Qabs (inject_Z d' - inject_Z d * (inject_Z r / inject_Z m))
     < 1 + (1 # 1000))%Q /\
  (d = m -> r - 1 <= d' <= r).
Proof.
  intros [Hd1 Hdm] Hm [Hr1 Hrm] d'.
  assert (HD1 : (1 <= inject_Z d)%Q) by (now rewrite Zle_Qle in Hd1).
  assert (HDM : (inject_Z d <= inject_Z m)%Q) by (now rewrite Zle_Qle in Hdm).
  assert (HM : (inject_Z m <= 2147483648)%Q) by (now rewrite Zle_Qle in Hm).
  assert (HR1 : (1 <= inject_Z r)%Q) by (now rewrite Zle_Qle in Hr1).
  assert (HRM : (inject_Z r + 1 <= inject_Z m)%Q).
  { change 1%Q with (inject_Z 1). rewrite <- inject_Z_plus, <- Zle_Qle. lia. }
  destruct (scaled_dim_close (inject_Z d) (inject_Z m) (inject_Z r))
    as (Hs0 & Hy1 & Hy2); try lra.
  assert (Hs1 : (fdiv (inject_Z r) (inject_Z m) < 1)%Q).
  { apply Qltb_lt, scale_lt_1; lra. }
  set (s := fdiv (inject_Z r) (inject_Z m)) in *.
  assert (Hy0 : (0 <= fmul (inject_Z d) s)%Q).
  { apply fl_nonneg. nra. }
  assert (HyD : (fmul (inject_Z d) s <= inject_Z d)%Q).
  { unfold fmul. rewrite <- (fl_int d) at 2 by lia. apply fl_mono. nra. }
  set (y := fmul (inject_Z d) s) in *.
  assert (Hd' : d' = Qfloor y) by (subst d'; now apply trunc_nonneg).
  assert (Hf1 : (inject_Z d' <= y)%Q) by (rewrite Hd'; apply Qfloor_le).
  assert (Hf2 : (y < inject_Z d' + 1)%Q).
  { rewrite Hd'. change 1%Q with (inject_Z 1). rewrite <- inject_Z_plus.
    apply Qlt_floor. }
  split; [|split].
  - split.
    + rewrite Hd'. change 0 with (Qfloor 0). now apply Qfloor_resp_le.
    + rewrite Zle_Qle. lra.
  - apply Qabs_Qlt_condition. split; lra.
  - intros ->.
    assert (Hq : (inject_Z m * (inject_Z r / inject_Z m) == inject_Z r)%Q)
      by (field; lra).
    rewrite Hq in Hy1, Hy2.
    assert (Hlo : (inject_Z (r - 1) < inject_Z d' + 1)%Q).
    { unfold Z.sub. rewrite inject_Z_plus, inject_Z_opp.
      change (inject_Z 1) with 1%Q. lra. }
    assert (Hhi : (inject_Z d' < inject_Z (r + 1))%Q).
    { rewrite inject_Z_plus. change (inject_Z 1) with 1%Q. lra. }
    change 1%Q with (inject_Z 1) in Hlo. rewrite <- inject_Z_plus in Hlo.
    rewrite <- Zlt_Qlt in Hlo, Hhi. lia.
Qed.


(** ** The loader *)

(** [img.resize(size)] returns an image of the size it was given. *)
Hypothesis pil_resize_size :
  forall (img : image) (size : Z * Z) (img' : image),
    pil_resize img size = Ok img' -> (img_w img', img_h img') = size.

(** A target within the float range gives a quotient within it. *)
Lemma quotient_in_range (M R : Q) :
  (1 <= M)%Q -> (0 <= R)%Q -> (R < float_overflow)%Q ->
  Qle_bool float_overflow (Qabs (R / M)) = false.
Proof.
  intros HM HR Hov.
  set (q := (R / M)%Q).
  assert (Hq : (q * M == R)%Q) by (unfold q; field; lra).
  assert (Hq0 : (0 <= q)%Q) by nra.
  assert (HqR : (q <= R)%Q) by nra.
  clearbody q. rewrite Qabs_pos by exact Hq0.
  destruct (Qle_bool float_overflow q) eqn:H; [|reflexivity].
  apply Qle_bool_iff in H. lra.
Qed.

Lemma image_side_in_range : (2147483648 < float_overflow)%Q.
Proof. vm_compute. reflexivity. Qed.



(** ** The safety evaluator *)

Lemma scan_others_true (sim_lab : list color) (thresh : Q) (i : nat)
  (js : list nat) :
  scan_others sim_lab thresh i js = true <->
  forall j, In j js -> j <> i -> (thresh <= deltaE sim_lab i j)%Q.
Proof.
  induction js as [|j js IH]; simpl.
  - split; [intros _ j [] | reflexivity].
  - destruct (Nat.eqb_spec i j) as [->|Hne]; simpl.
    + rewrite IH. split.
      * intros H k [<-|Hk] Hki; [congruence | now apply H].
      * intros H k Hk Hki. apply H; [now right | exact Hki].
    + destruct (Qltb (deltaE sim_lab i j) thresh) eqn:Hlt.
      * split; [discriminate|]. intros H.
        apply Qltb_lt in Hlt. specialize (H j (or_introl eq_refl)).
        exfalso. apply (Qlt_not_le _ _ Hlt). apply H. congruence.
      * apply Qltb_ge in Hlt. rewrite IH. split.
        -- intros H k [<-|Hk] Hki; [exact Hlt | now apply H].
        -- intros H k Hk Hki. apply H; [now right | exact Hki].
Qed.

Lemma scan_models_true (colors : list color) (thresh : Q) (i : nat)
  (mats : list matrix) :
  scan_models colors thresh i mats = true <->
  forall mat j, In mat mats -> (j < length colors)%nat -> j <> i ->
    (thresh <= deltaE (sim_lab_of colors mat) i j)%Q.
Proof.
  induction mats as [|mat mats IH]; simpl.
  - split; [intros _ mat j [] | reflexivity].
  - destruct (scan_others _ thresh i _) eqn:Hin.
    + rewrite scan_others_true in Hin. rewrite IH. split.
      * intros H m j [<-|Hm] Hj Hji; [|now apply H].
        apply Hin; [|exact Hji]. apply in_seq.
        unfold sim_lab_of. rewrite !length_map. lia.
      * intros H m j Hm. apply H. now right.
    + split; [discriminate|]. intros H.
      assert (Hall : scan_others (sim_lab_of colors mat) thresh i
                       (seq 0 (length (sim_lab_of colors mat))) = true).
      { apply scan_others_true. intros j Hj Hji. apply H; [now left | | exact Hji].
        apply in_seq in Hj. unfold sim_lab_of in Hj.
        rewrite !length_map in Hj. lia. }
      congruence.
Qed.

Lemma scan_others_false (sim_lab : list color) (thresh : Q) (i : nat)
  (js : list nat) :
  scan_others sim_lab thresh i js = false <->
  exists j, In j js /\ j <> i /\ (deltaE sim_lab i j < thresh)%Q.
Proof.
  induction js as [|j js IH]; simpl.
  - split; [discriminate | intros (j & [] & _)].
  - destruct (Nat.eqb_spec i j) as [->|Hne]; simpl.
    + rewrite IH. split.
      * intros (k & Hk & Hki & Hlt). exists k. auto.
      * intros (k & [<-|Hk] & Hki & Hlt); [congruence|]. exists k. auto.
    + destruct (Qltb (deltaE sim_lab i j) thresh) eqn:Hlt.
      * apply Qltb_lt in Hlt. split; [|reflexivity]. intros _.
        exists j. repeat split; auto.
      * apply Qltb_ge in Hlt. rewrite IH. split.
        -- intros (k & Hk & Hki & Hlt'). exists k. auto.
        -- intros (k & [<-|Hk] & Hki & Hlt').
           ++ exfalso. apply (Qlt_not_le _ _ Hlt'), Hlt.
           ++ exists k. auto.
Qed.

Lemma scan_models_false (colors : list color) (thresh : Q) (i : nat)
  (mats : list matrix) :
  scan_models colors thresh i mats = false <->
  exists mat j, In mat mats /\ (j < length colors)%nat /\ j <> i /\
    (deltaE (sim_lab_of colors mat) i j < thresh)%Q.
Proof.
  induction mats as [|mat mats IH]; simpl.
  - split; [discriminate | intros (m & j & [] & _)].
  - destruct (scan_others _ thresh i _) eqn:Hin.
    + rewrite IH. split.
      * intros (m & j & Hm & H). exists m, j. auto.
      * intros (m & j & [<-|Hm] & Hj & Hji & Hlt).
        -- rewrite scan_others_true in Hin. exfalso.
           apply (Qlt_not_le _ _ Hlt), Hin; [|exact Hji].
           apply in_seq. unfold sim_lab_of. rewrite !length_map. lia.
        -- exists m, j. auto.
    + split; [|reflexivity]. intros _.
      apply scan_others_false in Hin. destruct Hin as (j & Hj & Hji & Hlt).
      exists mat, j. repeat split; auto.
      apply in_seq in Hj. unfold sim_lab_of in Hj.
      rewrite !length_map in Hj. lia.
Qed.

Lemma safe_flags_nth_error (colors : list color) (thresh : Q) (i : nat) :
  nth_error (safe_flags colors thresh) i =
  if (i <? length colors)%nat
  then Some (scan_models colors thresh i CB_values) else None.
Proof.
  unfold safe_flags. rewrite nth_error_map.
  destruct (Nat.ltb_spec i (length colors)) as [Hlt|Hge].
  - now rewrite nth_error_seq, (proj2 (Nat.ltb_lt _ _) Hlt).
  - rewrite (proj2 (nth_error_None _ _)); [reflexivity|].
    now rewrite length_seq.
Qed.

Lemma zip3_nth_error {A B C} (l1 : list A) (l2 : list B) (l3 : list C)
  (i : nat) (x : A * B * C) :
  nth_error (zip3 l1 l2 l3) i = Some x <->
  nth_error l1 i = Some (fst (fst x)) /\
  nth_error l2 i = Some (snd (fst x)) /\
  nth_error l3 i = Some (snd x).
Proof.
  destruct x as [[a' b'] c']. simpl.
  revert l2 l3 i. induction l1 as [|a l1 IH]; intros [|b l2] [|c l3] [|i];
    simpl;
    try (split;
         [ intros H; discriminate H
         | intros (H1 & H2 & H3);
           first [discriminate H1 | discriminate H2 | discriminate H3] ]).
  - split.
    + intros [= <- <- <-]. auto.
    + intros ([= <-] & [= <-] & [= <-]). reflexivity.
  - apply IH.
Qed.

Lemma zip3_length {A B C} (l1 : list A) (l2 : list B) (l3 : list C) :
  length (zip3 l1 l2 l3)
  = Nat.min (length l1) (Nat.min (length l2) (length l3)).
Proof.
  revert l2 l3. induction l1 as [|a l1 IH]; intros [|b l2] [|c l3];
    simpl; try reflexivity; try lia.
  now rewrite IH.
Qed.

(** The entry of cluster [i] before the sort. *)
Lemma results_unsorted_nth_error (colors : list color) (labels : list nat)
  (n : nat) (thresh : Q) (i : nat) (e : entry) :
  nth_error (results_unsorted colors labels n thresh) i = Some e ->
  exists c f,
    nth_error colors i = Some c /\
    nth_error (percentages (cluster_counts labels n)) i = Some f /\
    e = make_entry (c, f, scan_models colors thresh i CB_values).
Proof.
  unfold results_unsorted. rewrite nth_error_map.
  destruct (nth_error (zip3 _ _ _) i) as [[[c f] b]|] eqn:Hz; [|discriminate].
  intros [= <-]. apply zip3_nth_error in Hz. simpl in Hz.
  destruct Hz as (Hc & Hf & Hb). rewrite safe_flags_nth_error in Hb.
  destruct (i <? length colors)%nat; [|discriminate].
  injection Hb as <-. exists c, f. auto.
Qed.

(** ** The sort *)

Lemma insert_by_perm {A} (key : A -> Q) (x : A) (l : list A) :
  Permutation (insert_by key x l) (x :: l).
Proof.
  induction l as [|y l IH]; simpl; [reflexivity|].
  destruct (Qle_bool (key x) (key y)); [reflexivity|].
  rewrite IH. apply perm_swap.
Qed.

Lemma sort_by_perm {A} (key : A -> Q) (l : list A) :
  Permutation (sort_by key l) l.
Proof.
  induction l as [|x l IH]; simpl; [reflexivity|].
  unfold sort_by in *. simpl. rewrite insert_by_perm. now constructor.
Qed.

Lemma insert_by_sorted {A} (key : A -> Q) (x : A) (l : list A) :
  StronglySorted (fun a b => (key a <= key b)%Q) l ->
  StronglySorted (fun a b => (key a <= key b)%Q) (insert_by key x l).
Proof.
  induction 1 as [|y l Hs IH Hy]; simpl.
  - constructor; constructor.
  - destruct (Qle_bool (key x) (key y)) eqn:Hxy.
    + apply Qle_bool_iff in Hxy. constructor.
      * now constructor.
      * constructor; [exact Hxy|].
        eapply Forall_impl; [exact Hy|]. simpl. intros z Hz. lra.
    + assert (Hyx : (key y <= key x)%Q).
      { apply Qlt_le_weak, Qnot_le_lt. intros H.
        apply Qle_bool_iff in H. congruence. }
      constructor; [exact IH|].
      rewrite insert_by_perm. now constructor.
Qed.

Lemma sort_by_sorted {A} (key : A -> Q) (l : list A) :
  StronglySorted (fun a b => (key a <= key b)%Q) (sort_by key l).
Proof.
  induction l as [|x l IH]; [constructor|].
  unfold sort_by in *. simpl. now apply insert_by_sorted.
Qed.

Lemma palette_perm (colors : list color) (labels : list nat) (n : nat)
  (thresh : Q) :
  Permutation (palette colors labels n thresh)
              (results_unsorted colors labels n thresh).
Proof. apply sort_by_perm. Qed.

(** Every returned entry is the entry of some cluster. *)
Lemma palette_entry_of_cluster (colors : list color) (labels : list nat)
  (n : nat) (thresh : Q) (e : entry) :
  In e (palette colors labels n thresh) ->
  exists i, nth_error (results_unsorted colors labels n thresh) i = Some e.
Proof.
  intros H. apply In_nth_error.
  eapply Permutation_in; [apply palette_perm | exact H].
Qed.

Lemma make_entry_safe (c : color) (f : Q) (b : bool) :
  colorblind_safe (make_entry (c, f, b)) = b.
Proof. reflexivity. Qed.

(** C1, as the code has it.  The entry of cluster [i] is flagged safe
    exactly when no distance to another cluster, under any of the three
    matrices, is below the threshold (a distance equal to the threshold
    does not clear the flag), and flagged unsafe exactly when some such
    distance is below it: the two loops with their [break]s compute the
    quantified condition. *)
Theorem safe_flag_iff_no_distance_below (colors : list color)
  (labels : list nat) (n : nat) (thresh : Q) (e : entry) :
  In e (palette colors labels n thresh) ->
  exists i : nat,
    nth_error (results_unsorted colors labels n thresh) i = Some e /\
    (colorblind_safe e = true <->
     forall mat j, In mat CB_values -> (j < length colors)%nat -> j <> i ->
       (thresh <= deltaE (sim_lab_of colors mat) i j)%Q) /\
    (colorblind_safe e = false <->
     exists mat j, In mat CB_values /\ (j < length colors)%nat /\ j <> i /\
       (deltaE (sim_lab_of colors mat) i j < thresh)%Q).
Proof.
  intros Hin. destruct (palette_entry_of_cluster _ _ _ _ _ Hin) as [i Hi].
  exists i. split; [exact Hi|].
  destruct (results_unsorted_nth_error _ _ _ _ _ _ Hi) as (c & f & _ & _ & ->).
  rewrite make_entry_safe. split.
  - apply scan_models_true.
  - apply scan_models_false.
Qed.

(** ** Symmetry of the distance *)

(** [np.linalg.norm] depends on the values of the components only, and a
    vector and its opposite have the same norm. *)
Hypothesis linalg_norm_proper :
  forall a b : color, color_eq a b -> (linalg_norm a == linalg_norm b)%Q.
Hypothesis linalg_norm_neg :
  forall a : color, (linalg_norm (vneg a) == linalg_norm a)%Q.

Lemma fsub_swap (x y : Q) : (fsub y x == - fsub x y)%Q.
Proof.
  unfold fsub. rewrite <- fl_odd. apply fl_proper. ring.
Qed.

Lemma vsub_swap (a b : color) : color_eq (vsub b a) (vneg (vsub a b)).
Proof.
  destruct a as [[a0 a1] a2], b as [[b0 b1] b2]. unfold color_eq. simpl.
  repeat split; apply fsub_swap.
Qed.

Lemma deltaE_sym (sim_lab : list color) (i j : nat) :
  (deltaE sim_lab j i == deltaE sim_lab i j)%Q.
Proof.
  unfold deltaE.
  rewrite <- (linalg_norm_neg (vsub (row sim_lab i) (row sim_lab j))).
  apply linalg_norm_proper, vsub_swap.
Qed.

(** C9.  When the distance between clusters [i] and [j] under one of the
    matrices is below the threshold, the entries of both clusters are
    flagged unsafe. *)
Theorem unsafe_is_symmetric (colors : list color) (labels : list nat)
  (n : nat) (thresh : Q) (i j : nat) (ei ej : entry) (mat : matrix) :
  nth_error (results_unsorted colors labels n thresh) i = Some ei ->
  nth_error (results_unsorted colors labels n thresh) j = Some ej ->
  i <> j ->
  In mat CB_values ->
  (deltaE (sim_lab_of colors mat) i j < thresh)%Q ->
  colorblind_safe ei = false /\ colorblind_safe ej = false.
Proof.
  intros Hi Hj Hij Hmat Hlt.
  destruct (results_unsorted_nth_error _ _ _ _ _ _ Hi)
    as (ci & fi & Hci & _ & ->).
  destruct (results_unsorted_nth_error _ _ _ _ _ _ Hj)
    as (cj & fj & Hcj & _ & ->).
  assert (Hil : (i < length colors)%nat)
    by (apply nth_error_Some; congruence).
  assert (Hjl : (j < length colors)%nat)
    by (apply nth_error_Some; congruence).
  rewrite !make_entry_safe. split; apply scan_models_false.
  - exists mat, j. auto.
  - exists mat, i. repeat split; auto. now rewrite deltaE_sym.
Qed.

(** ** Running the function *)

(** A call that returns has loaded an image, clustered its pixels and
    returns the palette of that clustering. *)
Lemma extract_ok_inv (a : args) (w w' : world) (results : list entry) :
  extract_colorblind_safe_palette a w = (Ok results, w') ->
  exists img0 img labels colors,
    fs w !! image_path a = Some (ImageFile img0) /\
    preprocess img0 (resize a) = Ok img /\
    kmeans_fit_predict (n_colors a) 10 42 (pixels_of img)
      = Ok (labels, colors) /\
    results = palette colors labels (n_colors a) (deltaE_thresh a).
Proof.
  unfold extract_colorblind_safe_palette, bind, image_open, lift.
  destruct (fs w !! image_path a) as [[img0| | |]|] eqn:Hfs; try discriminate.
  destruct (preprocess img0 (resize a)) as [img|] eqn:Hpre; try discriminate.
  destruct (kmeans_fit_predict _ _ _ _) as [[labels colors]|] eqn:Hkm;
    try discriminate.
  simpl. destruct (report _ _ _ _) as [[[]|] w1]; try discriminate.
  unfold ret. intros [= <- <-].
  exists img0, img, labels, colors. auto.
Qed.

Lemma percentages_length (counts : list nat) :
  length (percentages counts) = length counts.
Proof. unfold percentages. now rewrite length_map. Qed.

Lemma cluster_counts_length (labels : list nat) (n : nat) :
  length (cluster_counts labels n) = n.
Proof. unfold cluster_counts. now rewrite length_map, length_seq. Qed.

Lemma safe_flags_length (colors : list color) (thresh : Q) :
  length (safe_flags colors thresh) = length colors.
Proof. unfold safe_flags. now rewrite length_map, length_seq. Qed.

Lemma palette_length (colors : list color) (labels : list nat) (n : nat)
  (thresh : Q) :
  length (palette colors labels n thresh) = Nat.min (length colors) n.
Proof.
  rewrite (Permutation_length (palette_perm _ _ _ _)).
  unfold results_unsorted.
  rewrite length_map, zip3_length, percentages_length,
    cluster_counts_length, safe_flags_length. lia.
Qed.

(** ** The contract of the clustering

    [KMeans] returns [n_clusters] centres and one label below
    [n_clusters] per sample, and refuses fewer samples than clusters and
    no cluster at all.  Its centres are means of samples, computed in
    floating point on centred data: for samples in [[0,1]] a channel of a
    centre can leave [[0,1]] by a few units in the last place, and stays
    well within [1/256] of it. *)

Hypothesis kmeans_shape :
  forall (n n_init : nat) (seed : Z) (pixels : list color)
         (labels : list nat) (centers : list color),
    kmeans_fit_predict n n_init seed pixels = Ok (labels, centers) ->
    length centers = n /\
    length labels = length pixels /\
    Forall (fun l => (l < n)%nat) labels /\
    (1 <= n <= length pixels)%nat.

Hypothesis kmeans_centers_near_unit :
  forall (n n_init : nat) (seed : Z) (pixels : list color)
         (labels : list nat) (centers : list color),
    kmeans_fit_predict n n_init seed pixels = Ok (labels, centers) ->
    Forall in_unit pixels -> Forall near_unit centers.

(** C2.  A call that returns, returns exactly [n_colors] entries. *)
Theorem returns_n_colors_entries (a : args) (w w' : world)
  (results : list entry) :
  extract_colorblind_safe_palette a w = (Ok results, w') ->
  length results = n_colors a.
Proof.
  intros H. apply extract_ok_inv in H.
  destruct H as (img0 & img & labels & colors & _ & _ & Hkm & ->).
  apply kmeans_shape in Hkm. destruct Hkm as (Hlen & _).
  rewrite palette_length. lia.
Qed.

(** ** Frequencies *)

Lemma rint_close (x : Q) :
  (inject_Z (rint x) - (1 # 2) <= x /\ x <= inject_Z (rint x) + (1 # 2))%Q.
Proof.
  unfold rint.
  pose proof (Qfloor_le x) as Hlo. pose proof (Qlt_floor x) as Hhi.
  rewrite inject_Z_plus in Hhi. change (inject_Z 1) with 1%Q in Hhi.
  set (f := Qfloor x) in *.
  destruct (Qltb (x - inject_Z f) (1 # 2)) eqn:H1.
  - apply Qltb_lt in H1. split; lra.
  - apply Qltb_ge in H1.
    destruct (Qltb (1 # 2) (x - inject_Z f)) eqn:H2.
    + rewrite inject_Z_plus. change (inject_Z 1) with 1%Q. split; lra.
    + apply Qltb_ge in H2. destruct (Z.even f).
      * split; lra.
      * rewrite inject_Z_plus. change (inject_Z 1) with 1%Q. split; lra.
Qed.

Lemma rint_nonneg (x : Q) : (0 <= x)%Q -> 0 <= rint x.
Proof.
  intros Hx. unfold rint.
  assert (Hf : 0 <= Qfloor x).
  { change 0 with (Qfloor 0). now apply Qfloor_resp_le. }
  destruct (Qltb _ _); [exact Hf|].
  destruct (Qltb _ _); [lia|]. destruct (Z.even _); lia.
Qed.

Lemma percentages_pct (counts : list nat) :
  percentages counts
  = map (pct (inject_Z (Z.of_nat (foldr Nat.add 0%nat counts)))) counts.
Proof. reflexivity. Qed.

(** A rounded percentage is not negative and is within [0.1] of the exact
    percentage. *)
Lemma round1_pct_close (c T : nat) :
  (c <= T)%nat -> (1 <= T)%nat ->
  (0 <= round1 (pct (inject_Z (Z.of_nat T)) c))%Q /\
  (Qabs (round1 (pct (inject_Z (Z.of_nat T)) c)
         - 100 * (inject_Z (Z.of_nat c) / inject_Z (Z.of_nat T)))
     <= 1 # 10)%Q.
Proof.
  intros HcT HT. unfold round1, pct, fmul, fdiv.
  assert (HC0 : (0 <= inject_Z (Z.of_nat c))%Q).
  { change 0%Q with (inject_Z 0). rewrite <- Zle_Qle. lia. }
  assert (HT1 : (1 <= inject_Z (Z.of_nat T))%Q).
  { change 1%Q with (inject_Z 1). rewrite <- Zle_Qle. lia. }
  assert (HCT : (inject_Z (Z.of_nat c) <= inject_Z (Z.of_nat T))%Q).
  { rewrite <- Zle_Qle. lia. }
  set (x := (inject_Z (Z.of_nat c) / inject_Z (Z.of_nat T))%Q).
  assert (Hx : (x * inject_Z (Z.of_nat T) == inject_Z (Z.of_nat c))%Q)
    by (unfold x; field; lra).
  assert (Hx0 : (0 <= x)%Q) by nra.
  assert (Hx1 : (x <= 1)%Q) by nra.
  clearbody x.
  assert (Hr : (1011 <= fl_range)%Q) by (unfold fl_range, Qle; simpl; lia).
  assert (He : (eps * (1011 + 1) <= 1 # 1000000)%Q)
    by (unfold eps, Qle; simpl; lia).
  assert (He0 : (0 <= eps)%Q) by (unfold eps, Qle; simpl; lia).
  assert (Hmono : forall b, (0 <= b)%Q -> (b <= 1011)%Q ->
            (eps * (b + 1) <= 1 # 1000000)%Q).
  { intros b Hb0 Hb. generalize dependent eps. intros e **. nra. }
  destruct (fl_near x 1) as [Ha1 Ha2]; try lra.
  pose proof (Hmono 1%Q ltac:(lra) ltac:(lra)) as E1.
  pose proof (fl_nonneg x Hx0) as Ha0.
  set (a := fl x) in *. clearbody a.
  destruct (fl_near (a * 100) 101) as [Hb1 Hb2]; try lra.
  pose proof (Hmono 101%Q ltac:(lra) ltac:(lra)) as E2.
  pose proof (fl_nonneg (a * 100) ltac:(lra)) as Hb0.
  set (b := fl (a * 100)) in *. clearbody b.
  destruct (fl_near (b * 10) 1011) as [Hp1 Hp2]; try lra.
  pose proof (Hmono 1011%Q ltac:(lra) ltac:(lra)) as E3.
  pose proof (fl_nonneg (b * 10) ltac:(lra)) as Hp0.
  set (p := fl (b * 10)) in *. clearbody p.
  destruct (rint_close p) as [Hk1 Hk2].
  pose proof (rint_nonneg p Hp0) as Hk0.
  rewrite Zle_Qle in Hk0. change (inject_Z 0) with 0%Q in Hk0.
  set (k := inject_Z (rint p)) in *. clearbody k.
  assert (Hk10 : (0 <= k / 10)%Q) by (apply Qle_shift_div_l; lra).
  assert (Hk10' : (k / 10 * 10 == k)%Q) by (field; lra).
  destruct (fl_near (k / 10) 1011) as [Hq1 Hq2]; try lra.
  split.
  - now apply fl_nonneg.
  - apply Qabs_Qle_condition. split; lra.
Qed.

Lemma counter_get_Counter (labels : list nat) (i : nat) :
  counter_get (Counter labels) i = count_occ Nat.eq_dec labels i.
Proof.
  unfold counter_get. induction labels as [|l labels IH]; simpl.
  - now rewrite lookup_empty.
  - destruct (Nat.eq_dec l i) as [->|Hne].
    + rewrite lookup_insert_eq. simpl. now rewrite IH.
    + rewrite lookup_insert_ne by exact Hne. exact IH.
Qed.

(** A cluster that received no pixel still has a count, zero. *)
Lemma counter_get_absent (labels : list nat) (i : nat) :
  ~ In i labels -> counter_get (Counter labels) i = 0%nat.
Proof.
  intros H. rewrite counter_get_Counter. now apply count_occ_not_In.
Qed.

Lemma total_count_occ (labels : list nat) (n : nat) :
  Forall (fun l => (l < n)%nat) labels ->
  total (map (count_occ Nat.eq_dec labels) (seq 0 n)) = length labels.
Proof.
  induction 1 as [|l labels Hl _ IH]; simpl.
  - induction (seq 0 n) as [|i s IHs]; simpl; [reflexivity | exact IHs].
  - rewrite <- IH. clear IH.
    assert (Hin : In l (seq 0 n)) by (apply in_seq; lia).
    assert (Hnd : List.NoDup (seq 0 n)) by apply List.seq_NoDup.
    revert Hin Hnd. generalize (seq 0 n). intros s.
    induction s as [|i s IHs]; simpl; [intros []|].
    intros Hin Hnd. apply List.NoDup_cons_iff in Hnd. destruct Hnd as [Hi Hnd].
    destruct (Nat.eq_dec l i) as [->|Hne].
    + assert (Hrest :
        total (map (fun x => if Nat.eq_dec i x
                             then S (count_occ Nat.eq_dec labels x)
                             else count_occ Nat.eq_dec labels x) s)
        = total (map (count_occ Nat.eq_dec labels) s)).
      { clear IHs Hin Hnd.
        induction s as [|k s IHs]; simpl; [reflexivity|].
        destruct (Nat.eq_dec i k) as [->|_].
        - exfalso. apply Hi. now left.
        - f_equal. apply IHs. intros Hk. apply Hi. now right. }
      rewrite Hrest. lia.
    + destruct Hin as [->|Hin]; [congruence|].
      rewrite (IHs Hin Hnd). lia.
Qed.

Lemma cluster_counts_total (labels : list nat) (n : nat) :
  Forall (fun l => (l < n)%nat) labels ->
  total (cluster_counts labels n) = length labels.
Proof.
  intros H. rewrite <- (total_count_occ labels n H). unfold cluster_counts.
  f_equal. apply map_ext. intros i. apply counter_get_Counter.
Qed.

Lemma total_ge (counts : list nat) (c : nat) :
  In c counts -> (c <= total counts)%nat.
Proof.
  induction counts as [|x counts IH]; simpl; [intros []|].
  intros [->|H]; [lia|]. specialize (IH H). lia.
Qed.

Lemma Qsum_perm (l l' : list Q) : Permutation l l' -> (Qsum l == Qsum l')%Q.
Proof.
  induction 1; simpl; try reflexivity.
  - now rewrite IHPermutation.
  - ring.
  - now rewrite IHPermutation1.
Qed.

(** The rounded percentages of any counts out of a total [T] add up to
    the exact percentage of their sum, up to a tenth per count. *)
Lemma round1_sum_close (T : nat) (cs : list nat) :
  (1 <= T)%nat -> Forall (fun c => (c <= T)%nat) cs ->
  (Qabs (Qsum (map round1 (map (pct (inject_Z (Z.of_nat T))) cs))
         - 100 * (inject_Z (Z.of_nat (total cs)) / inject_Z (Z.of_nat T)))
     <= inject_Z (Z.of_nat (length cs)) * (1 # 10))%Q.
Proof.
  intros HT. induction 1 as [|c cs Hc Hcs IH].
  - cbn [map Qsum foldr total length].
    change (inject_Z (Z.of_nat 0)) with 0%Q.
    assert (Hz : (0 / inject_Z (Z.of_nat T) == 0)%Q) by (unfold Qdiv; ring).
    set (z := (0 / inject_Z (Z.of_nat T))%Q) in *. clearbody z.
    apply Qabs_Qle_condition. split; lra.
  - cbn [map Qsum foldr total length].
    destruct (round1_pct_close c T Hc HT) as [_ He].
    apply Qabs_Qle_condition in He. apply Qabs_Qle_condition in IH.
    fold (total cs). rewrite Nat2Z.inj_add, Nat2Z.inj_succ.
    unfold Z.succ. rewrite !inject_Z_plus. change (inject_Z 1) with 1%Q.
    fold (Qsum (map round1 (map (pct (inject_Z (Z.of_nat T))) cs))).
    assert (HT1 : (1 <= inject_Z (Z.of_nat T))%Q).
    { change 1%Q with (inject_Z 1). rewrite <- Zle_Qle. lia. }
    assert (Hsplit :
      (100 * ((inject_Z (Z.of_nat c) + inject_Z (Z.of_nat (total cs)))
              / inject_Z (Z.of_nat T))
       == 100 * (inject_Z (Z.of_nat c) / inject_Z (Z.of_nat T))
          + 100 * (inject_Z (Z.of_nat (total cs)) / inject_Z (Z.of_nat T)))%Q)
      by (field; lra).
    rewrite Hsplit. apply Qabs_Qle_condition. split; lra.
Qed.

Lemma zip3_middle {A B C} (l1 : list A) (l2 : list B) (l3 : list C) :
  length l1 = length l2 -> length l3 = length l2 ->
  map (fun x => snd (fst x)) (zip3 l1 l2 l3) = l2.
Proof.
  revert l2 l3. induction l1 as [|a l1 IH]; intros [|b l2] [|c l3];
    simpl; try discriminate; try reflexivity.
  intros [= H1] [= H3]. f_equal. now apply IH.
Qed.

(** The frequencies of the entries, in cluster order, are the rounded
    percentages of the cluster counts. *)
Lemma results_unsorted_frequencies (colors : list color)
  (labels : list nat) (n : nat) (thresh : Q) :
  length colors = n ->
  map frequency (results_unsorted colors labels n thresh)
  = map round1 (percentages (cluster_counts labels n)).
Proof.
  intros Hlen. unfold results_unsorted. rewrite map_map.
  rewrite <- (zip3_middle colors (percentages (cluster_counts labels n))
                (safe_flags colors thresh)) at 2.
  - rewrite map_map. apply map_ext. now intros [[c f] b].
  - now rewrite percentages_length, cluster_counts_length.
  - now rewrite safe_flags_length, percentages_length, cluster_counts_length.
Qed.

(** C3.  The frequencies of the returned entries are not negative, and
    their sum is 100 up to a tenth per entry. *)
Theorem frequencies_sum_to_100 (a : args) (w w' : world)
  (results : list entry) :
  extract_colorblind_safe_palette a w = (Ok results, w') ->
  Forall (fun e => (0 <= frequency e)%Q) results /\
  (Qabs (Qsum (map frequency results) - 100)
     <= inject_Z (Z.of_nat (length results)) * (1 # 10))%Q.
Proof.
  intros H. apply extract_ok_inv in H.
  destruct H as (img0 & img & labels & colors & _ & _ & Hkm & ->).
  apply kmeans_shape in Hkm. destruct Hkm as (Hlen & Hlab & Hlt & Hn1 & Hnp).
  set (n := n_colors a) in *. set (thresh := deltaE_thresh a).
  set (counts := cluster_counts labels n).
  assert (HT : total counts = length labels)
    by now apply cluster_counts_total.
  assert (HT1 : (1 <= total counts)%nat) by lia.
  assert (Hle : Forall (fun c => (c <= total counts)%nat) counts).
  { apply List.Forall_forall. intros c Hc. now apply total_ge. }
  assert (Hfreq : map frequency (results_unsorted colors labels n thresh)
                  = map round1 (map (pct (inject_Z (Z.of_nat (total counts))))
                                    counts)).
  { rewrite results_unsorted_frequencies by exact Hlen.
    now rewrite percentages_pct. }
  pose proof (palette_perm colors labels n thresh) as Hperm.
  split.
  - apply List.Forall_forall. intros e He.
    assert (Hin : In (frequency e)
                     (map frequency (results_unsorted colors labels n thresh))).
    { apply in_map. eapply Permutation_in; [exact Hperm | exact He]. }
    rewrite Hfreq, map_map in Hin. apply in_map_iff in Hin.
    destruct Hin as (c & <- & Hc).
    apply round1_pct_close; [|exact HT1]. now apply total_ge.
  - rewrite (Qsum_perm _ _ (Permutation_map frequency Hperm)).
    rewrite (Permutation_length Hperm), Hfreq.
    pose proof (round1_sum_close (total counts) counts HT1 Hle) as Hsum.
    assert (Hlen' : length (results_unsorted colors labels n thresh)
                    = length counts).
    { rewrite <- (length_map frequency), Hfreq. now rewrite !length_map. }
    rewrite Hlen'.
    assert (HTq : (1 <= inject_Z (Z.of_nat (total counts)))%Q).
    { change 1%Q with (inject_Z 1). rewrite <- Zle_Qle. lia. }
    assert (Hone : (100 * (inject_Z (Z.of_nat (total counts))
                           / inject_Z (Z.of_nat (total counts))) == 100)%Q)
      by (field; lra).
    rewrite Hone in Hsum. exact Hsum.
Qed.

(** ** Colour codes *)

Lemma channel_range (b : byte) : byte_range (channel b).
Proof.
  unfold byte_range, channel. pose proof (Byte.to_N_bounded b). lia.
Qed.

Lemma unit_of_channel (b : byte) :
  (0 <= fdiv (inject_Z (channel b)) 255 <= 1)%Q.
Proof.
  destruct (channel_range b) as [H0 H1]. rewrite Zle_Qle in H0, H1.
  change (inject_Z 0) with 0%Q in H0. change (inject_Z 255) with 255%Q in H1.
  unfold fdiv. split.
  - apply fl_nonneg. apply Qle_shift_div_l; lra.
  - rewrite <- fl_1. apply fl_mono. apply Qle_shift_div_r; lra.
Qed.

Lemma pixels_in_unit (img : image) : Forall in_unit (pixels_of img).
Proof.
  unfold pixels_of. apply List.Forall_forall. intros c Hc.
  apply in_map_iff in Hc. destruct Hc as ([[r g] b] & <- & _).
  unfold in_unit. simpl. auto using unit_of_channel.
Qed.

Lemma trunc_small_neg (x : Q) : (- 1 < x)%Q -> (x <= 0)%Q -> trunc x = 0.
Proof.
  destruct x as [n d]. unfold Qlt, Qle, trunc. simpl. intros H1 H0.
  rewrite <- (Z.opp_involutive n), Z.quot_opp_l by lia.
  rewrite Z.quot_small by lia. reflexivity.
Qed.

(** [int(c * 255)] of a channel within [1/256] of [[0,1]] is a byte: a
    product between -1 and 0 truncates to 0, one between 255 and 256 to
    255. *)
Lemma trunc_near_255 (x : Q) : near_01 x -> byte_range (trunc (fmul x 255)).
Proof.
  intros [H0 H1]. unfold byte_range, fmul.
  set (y := (x * 255)%Q).
  assert (Hy : (- (255 # 256) <= y /\ y <= 255 + (255 # 256))%Q)
    by (unfold y; lra).
  assert (Ha : (Qabs y <= 256)%Q) by (apply Qabs_Qle_condition; lra).
  assert (He : (Qabs (fl y - y) <= eps * (Qabs y + 1))%Q).
  { apply fl_err. eapply Qle_trans; [exact Ha|]. unfold fl_range.
    change 256%Q with (inject_Z 256). rewrite <- Zle_Qle. lia. }
  pose proof (Qabs_nonneg y) as Ha0.
  assert (Heps : (0 <= eps)%Q) by (unfold eps, Qle; simpl; lia).
  assert (Heps' : (eps <= 1 # 1048576)%Q) by (unfold eps, Qle; simpl; lia).
  assert (Hb : (eps * (Qabs y + 1) <= 1 # 1024)%Q).
  { generalize dependent (Qabs y). generalize dependent eps. intros e **.
    nra. }
  apply Qabs_Qle_condition in He. destruct He as [He1 He2].
  clearbody y.
  destruct (Qlt_le_dec (fl y) 0) as [Hneg | Hpos].
  - rewrite trunc_small_neg by lra. lia.
  - apply trunc_floor_bounds; [exact Hpos | exact Hpos |].
    change (inject_Z (255 + 1)) with 256%Q. lra.
Qed.

Lemma rgb255_in_range (c : color) : near_unit c -> rgb_in_range (rgb255_of c).
Proof.
  destruct c as [[r g] b]. unfold near_unit, rgb_in_range. simpl.
  intros (Hr & Hg & Hb). auto using trunc_near_255.
Qed.

Lemma channel_codes_ok :
  forallb channel_code_ok (map Z.of_nat (seq 0 256)) = true.
Proof. vm_compute. reflexivity. Qed.

Lemma channel_code (z : Z) :
  byte_range z ->
  exists a b, fmt_02X z = String a (String b EmptyString) /\
    is_upper_hex a = true /\ is_upper_hex b = true /\ hex_pair a b = Some z.
Proof.
  intros Hz.
  assert (Hin : In z (map Z.of_nat (seq 0 256))).
  { apply in_map_iff. exists (Z.to_nat z). split; [unfold byte_range in Hz; lia|].
    apply in_seq. unfold byte_range in Hz. lia. }
  pose proof (proj1 (forallb_forall _ _) channel_codes_ok z Hin) as H.
  unfold channel_code_ok in H.
  destruct (fmt_02X z) as [|a [|b [|? ?]]]; try discriminate.
  apply andb_prop in H. destruct H as [H Hp]. apply andb_prop in H.
  destruct H as [Ha Hb].
  destruct (hex_pair a b) as [v|] eqn:Hv; [|discriminate].
  apply Z.eqb_eq in Hp. subst v. exists a, b. auto.
Qed.

Lemma hexcol_ok (c : Z * Z * Z) :
  rgb_in_range c -> hex_shape (hexcol c) = true /\ hex_decode (hexcol c) = Some c.
Proof.
  destruct c as [[r g] b]. unfold rgb_in_range. simpl. intros (Hr & Hg & Hb).
  destruct (channel_code r Hr) as (r1 & r0 & -> & Hr1 & Hr0 & Hrp).
  destruct (channel_code g Hg) as (g1 & g0 & -> & Hg1 & Hg0 & Hgp).
  destruct (channel_code b Hb) as (b1 & b0 & -> & Hb1 & Hb0 & Hbp).
  simpl. rewrite Hr1, Hr0, Hg1, Hg0, Hb1, Hb0, Hrp, Hgp, Hbp. auto.
Qed.

Lemma palette_entry_color (colors : list color) (labels : list nat)
  (n : nat) (thresh : Q) (e : entry) :
  In e (palette colors labels n thresh) ->
  exists c, In c colors /\ rgb e = rgb255_of c /\ hex e = hexcol (rgb255_of c).
Proof.
  intros H. destruct (palette_entry_of_cluster _ _ _ _ _ H) as [i Hi].
  destruct (results_unsorted_nth_error _ _ _ _ _ _ Hi) as (c & f & Hc & _ & ->).
  exists c. split; [|split; reflexivity]. eapply nth_error_In, Hc.
Qed.

(** The channels of a returned [rgb] are bytes, and [hex] is made of
    them. *)
Lemma extract_rgb_in_range (a : args) (w w' : world) (results : list entry)
  (e : entry) :
  extract_colorblind_safe_palette a w = (Ok results, w') ->
  In e results ->
  rgb_in_range (rgb e) /\ hex e = hexcol (rgb e).
Proof.
  intros H He. apply extract_ok_inv in H.
  destruct H as (img0 & img & labels & colors & _ & _ & Hkm & ->).
  apply kmeans_centers_near_unit in Hkm; [|apply pixels_in_unit].
  destruct (palette_entry_color _ _ _ _ _ He) as (c & Hc & -> & ->).
  split; [|reflexivity]. apply rgb255_in_range.
  now apply (proj1 (List.Forall_forall _ _) Hkm).
Qed.

(** C4.  The [hex] of a returned entry is [#] and six uppercase
    hexadecimal digits, and reads back as the entry's [rgb]. *)
Theorem hex_matches_rgb (a : args) (w w' : world) (results : list entry)
  (e : entry) :
  extract_colorblind_safe_palette a w = (Ok results, w') ->
  In e results ->
  hex_shape (hex e) = true /\ hex_decode (hex e) = Some (rgb e).
Proof.
  intros H He. destruct (extract_rgb_in_range _ _ _ _ _ H He) as [Hr ->].
  now apply hexcol_ok.
Qed.

(** ** The returned list *)

Lemma palette_descending (colors : list color) (labels : list nat) (n : nat)
  (thresh : Q) :
  descending (palette colors labels n thresh).
Proof.
  unfold descending, palette.
  pose proof (sort_by_sorted (fun e => (- frequency e)%Q)
                (results_unsorted colors labels n thresh)) as H.
  induction H as [|e l Hl IH He]; constructor; [exact IH|].
  eapply Forall_impl; [exact He|]. simpl. intros e' H'. lra.
Qed.

Lemma palette_one_decimal (colors : list color) (labels : list nat)
  (n : nat) (thresh : Q) (e : entry) :
  In e (palette colors labels n thresh) ->
  exists k : Z, frequency e = fdiv (inject_Z k) 10.
Proof.
  intros H. destruct (palette_entry_of_cluster _ _ _ _ _ H) as [i Hi].
  destruct (results_unsorted_nth_error _ _ _ _ _ _ Hi) as (c & f & _ & _ & ->).
  simpl. unfold round1. eauto.
Qed.

(** ** Effects *)

(** Without [save] a call writes no file. *)
Lemma extract_no_save_fs (a : args) (w : world) :
  save a = false ->
  fs (snd (extract_colorblind_safe_palette a w)) = fs w.
Proof.
  intros Hs.
  unfold extract_colorblind_safe_palette, bind, image_open, lift.
  destruct (fs w !! image_path a) as [[img0| | |]|]; try reflexivity.
  destruct (preprocess img0 (resize a)) as [img|]; try reflexivity.
  destruct (kmeans_fit_predict _ _ _ _) as [km|]; try reflexivity.
  unfold report, bind, when, print, lift, ret, plt_show. rewrite Hs. simpl.
  destruct (plot a); simpl; [|reflexivity].
  destruct (plt_draw _) as [[]|]; reflexivity.
Qed.

(** Without [save] and [plot], what a call returns or raises depends on
    the world through the file system only. *)
Lemma extract_quiet_ext (a : args) (w v : world) :
  save a = false -> plot a = false -> fs w = fs v ->
  fst (extract_colorblind_safe_palette a w)
  = fst (extract_colorblind_safe_palette a v).
Proof.
  intros Hs Hp Hfs.
  unfold extract_colorblind_safe_palette, bind, image_open, lift.
  rewrite Hfs.
  destruct (fs v !! image_path a) as [[img0| | |]|]; try reflexivity.
  destruct (preprocess img0 (resize a)) as [img|]; try reflexivity.
  destruct (kmeans_fit_predict _ _ _ _) as [km|]; try reflexivity.
  unfold report, bind, when, print, lift, ret. rewrite Hs, Hp. reflexivity.
Qed.

(** Once the image is loaded and clustered, a call without [save] and
    [plot] returns the palette and leaves the files as they were. *)
Lemma extract_quiet_returns (a : args) (w : world) (img0 img : image)
  (labels : list nat) (colors : list color) :
  fs w !! image_path a = Some (ImageFile img0) ->
  preprocess img0 (resize a) = Ok img ->
  kmeans_fit_predict (n_colors a) 10 42 (pixels_of img)
    = Ok (labels, colors) ->
  save a = false -> plot a = false ->
  exists w',
    extract_colorblind_safe_palette a w
    = (Ok (palette colors labels (n_colors a) (deltaE_thresh a)), w') /\
    fs w' = fs w.
Proof.
  intros Hfs Hpre Hkm Hs Hp.
  unfold extract_colorblind_safe_palette, bind, image_open, lift.
  rewrite Hfs, Hpre, Hkm.
  unfold report, bind, when, print, lift, ret. rewrite Hs, Hp.
  eexists. split; reflexivity.
Qed.

(** C7.  A call that returns, returns the whole palette: one entry for
    each of the [n_colors] clusters, the entries of the clusters in some
    order.  The list is the one the call without [save] and [plot]
    returns, and the one any call with other [save] and [plot] returns;
    it is in descending order of [frequency]; the channels of each [rgb]
    are integers from 0 to 255 and each [frequency] is the float of a
    number with one decimal. *)
Theorem returned_list_shape (a : args) (w w' : world) (results : list entry) :
  extract_colorblind_safe_palette a w = (Ok results, w') ->
  length results = n_colors a /\
  (exists (img0 img : image) (labels : list nat) (colors : list color),
     fs w !! image_path a = Some (ImageFile img0) /\
     preprocess img0 (resize a) = Ok img /\
     kmeans_fit_predict (n_colors a) 10 42 (pixels_of img)
       = Ok (labels, colors) /\
     Permutation results
       (results_unsorted colors labels (n_colors a) (deltaE_thresh a))) /\
  (exists w0 : world,
     extract_colorblind_safe_palette (with_flags a false false) w
     = (Ok results, w0)) /\
  (forall (s p : bool) (w2 : world) (results2 : list entry),
     extract_colorblind_safe_palette (with_flags a s p) w = (Ok results2, w2) ->
     results2 = results) /\
  descending results /\
  (forall e, In e results ->
     rgb_in_range (rgb e) /\
     exists k : Z, frequency e = fdiv (inject_Z k) 10).
Proof.
  intros H. pose proof (extract_ok_inv _ _ _ _ H) as Hinv.
  destruct Hinv as (img0 & img & labels & colors & Hfs & Hpre & Hkm & Hres).
  split; [|split; [|split; [|split; [|split]]]].
  - rewrite Hres, palette_length.
    apply kmeans_shape in Hkm. destruct Hkm as (Hlen & _). lia.
  - exists img0, img, labels, colors. repeat split; try assumption.
    rewrite Hres. apply palette_perm.
  - destruct (extract_quiet_returns (with_flags a false false) w img0 img
                labels colors Hfs Hpre Hkm eq_refl eq_refl) as (w0 & Hq & _).
    exists w0. rewrite Hres. exact Hq.
  - intros s p w2 results2 H2. apply extract_ok_inv in H2.
    destruct H2 as (img0' & img' & labels' & colors' & Hfs' & Hpre' & Hkm' & ->).
    simpl in *. rewrite Hfs in Hfs'. injection Hfs' as <-.
    rewrite Hpre in Hpre'. injection Hpre' as <-.
    rewrite Hkm in Hkm'. injection Hkm' as <- <-. now rewrite Hres.
  - rewrite Hres. apply palette_descending.
  - intros e He. split.
    + exact (proj1 (extract_rgb_in_range _ _ _ _ _ H He)).
    + rewrite Hres in He. eapply palette_one_decimal, He.
Qed.

(** C6.  Two calls in a row with the same arguments, [save=False] and
    [plot=False], return the same entries (or raise the same exception):
    the first call leaves the files as they were, and the clustering,
    with its fixed [n_init] and [random_state], is a function of the
    pixels. *)
Theorem two_quiet_calls_agree (a : args) (w w1 w2 : world)
  (r1 r2 : result (list entry)) :
  save a = false -> plot a = false ->
  extract_colorblind_safe_palette a w = (r1, w1) ->
  extract_colorblind_safe_palette a w1 = (r2, w2) ->
  r1 = r2.
Proof.
  intros Hs Hp H1 H2.
  pose proof (extract_no_save_fs a w Hs) as Hfs. rewrite H1 in Hfs.
  pose proof (extract_quiet_ext a w1 w Hs Hp Hfs) as Hext.
  rewrite H1, H2 in Hext. simpl in Hext. congruence.
Qed.

(** C8, first part.  When the image cannot be opened or decoded the call
    raises and the world is as before: no file is written, nothing is
    printed or shown. *)
Lemma load_failure_writes_nothing (a : args) (w : world) :
  (forall img, fs w !! image_path a <> Some (ImageFile img)) ->
  exists e, extract_colorblind_safe_palette a w = (Raise e, w).
Proof.
  intros H.
  unfold extract_colorblind_safe_palette, bind, image_open.
  destruct (fs w !! image_path a) as [[img0| | |]|]; eauto.
  now destruct (H img0).
Qed.

(** C8.  A failing load raises before anything is written; but once the
    image is loaded and clustered, with [save] and [plot] on, the text
    file is written first, and an exception of the plotting calls or of
    the figure's file then leaves the text file behind. *)
Theorem load_failure_writes_nothing_but_outputs_not_atomic
  (a : args) (w : world) :
  ((forall img, fs w !! image_path a <> Some (ImageFile img)) ->
   exists e, extract_colorblind_safe_palette a w = (Raise e, w)) /\
  (forall img0 img labels colors,
     fs w !! image_path a = Some (ImageFile img0) ->
     preprocess img0 (resize a) = Ok img ->
     kmeans_fit_predict (n_colors a) 10 42 (pixels_of img)
       = Ok (labels, colors) ->
     save a = true -> plot a = true ->
     writable w (txt_path a) = true ->
     let results := palette colors labels (n_colors a) (deltaE_thresh a) in
     (forall e, plt_draw (palette_figure img results) = Raise e ->
        exists w', extract_colorblind_safe_palette a w = (Raise e, w') /\
          fs w' = <[txt_path a := summary_text a results]> (fs w)) /\
     (plt_draw (palette_figure img results) = Ok tt ->
      writable w (fig_path a) = false ->
        exists w', extract_colorblind_safe_palette a w = (Raise OSError, w') /\
          fs w' = <[txt_path a := summary_text a results]> (fs w))).
Proof.
  split; [apply load_failure_writes_nothing|].
  intros img0 img labels colors Hfs Hpre Hkm Hs Hp Hw results.
  unfold extract_colorblind_safe_palette, bind, image_open, lift.
  rewrite Hfs, Hpre, Hkm. cbn [fst snd]. fold results.
  unfold report, bind, when, print, lift, ret, write_file.
  rewrite Hs, Hp. cbn [writable fs]. rewrite Hw.
  split.
  - intros e He. rewrite He. eexists. split; reflexivity.
  - intros Hd Hf. rewrite Hd. cbn [writable fs]. rewrite Hf.
    eexists. split; reflexivity.
Qed.

(** ** A single cluster *)

Lemma Qltb_proper (x x' y y' : Q) :
  (x == x')%Q -> (y == y')%Q -> Qltb x y = Qltb x' y'.
Proof.
  intros Hx Hy. unfold Qltb. f_equal.
  destruct (Qle_bool y x) eqn:H1, (Qle_bool y' x') eqn:H2; try reflexivity.
  - apply Qle_bool_iff in H1. rewrite Hx, Hy in H1.
    apply Qle_bool_iff in H1. congruence.
  - apply Qle_bool_iff in H2. rewrite <- Hx, <- Hy in H2.
    apply Qle_bool_iff in H2. congruence.
Qed.

Lemma rint_proper (x y : Q) : (x == y)%Q -> rint x = rint y.
Proof.
  intros H. unfold rint. rewrite (Qfloor_comp x y H).
  assert (Hd : (x - inject_Z (Qfloor y) == y - inject_Z (Qfloor y))%Q)
    by now rewrite H.
  rewrite (Qltb_proper _ _ _ _ Hd (Qeq_refl (1 # 2))).
  rewrite (Qltb_proper _ _ _ _ (Qeq_refl (1 # 2)) Hd). reflexivity.
Qed.

Lemma rint_inject (z : Z) : rint (inject_Z z) = z.
Proof.
  unfold rint. rewrite Qfloor_Z.
  assert (H : Qltb (inject_Z z - inject_Z z) (1 # 2) = true).
  { apply Qltb_lt. ring_simplify. reflexivity. }
  now rewrite H.
Qed.

(** All the pixels in one cluster: the frequency is [100.0]. *)
Lemma round1_pct_all (T : nat) :
  (1 <= T)%nat -> (round1 (pct (inject_Z (Z.of_nat T)) T) == 100)%Q.
Proof.
  intros HT. unfold round1, pct, fmul, fdiv.
  assert (HT1 : (1 <= inject_Z (Z.of_nat T))%Q).
  { change 1%Q with (inject_Z 1). rewrite <- Zle_Qle. lia. }
  assert (H1 : (fl (inject_Z (Z.of_nat T) / inject_Z (Z.of_nat T)) == 1)%Q).
  { rewrite <- fl_1. apply fl_proper. field. lra. }
  assert (H2 : (fl (fl (inject_Z (Z.of_nat T) / inject_Z (Z.of_nat T)) * 100)
                == 100)%Q).
  { rewrite <- (fl_int 100) at 2 by (simpl; lia). apply fl_proper.
    rewrite H1. reflexivity. }
  assert (H3 : (fl (fl (fl (inject_Z (Z.of_nat T) / inject_Z (Z.of_nat T))
                        * 100) * 10) == inject_Z 1000)%Q).
  { rewrite <- (fl_int 1000) by (simpl; lia). apply fl_proper.
    rewrite H2. reflexivity. }
  rewrite (rint_proper _ _ H3), rint_inject.
  transitivity (fl (inject_Z 100)).
  - apply fl_proper. reflexivity.
  - apply fl_int. simpl. lia.
Qed.

(** C10.  With [n_colors = 1] the call returns one entry, flagged safe,
    with frequency [100.0]. *)
Theorem single_cluster_is_safe_and_full (a : args) (w w' : world)
  (results : list entry) :
  n_colors a = 1%nat ->
  extract_colorblind_safe_palette a w = (Ok results, w') ->
  exists e, results = [e] /\ colorblind_safe e = true
            /\ (frequency e == 100)%Q.
Proof.
  intros Hn H. apply extract_ok_inv in H.
  destruct H as (img0 & img & labels & colors & _ & _ & Hkm & ->).
  apply kmeans_shape in Hkm. rewrite Hn in *.
  destruct Hkm as (Hlen & Hlab & Hlt & _ & Hnp).
  destruct colors as [|c [|c' colors]]; try discriminate.
  assert (HT : total (cluster_counts labels 1) = length labels)
    by now apply cluster_counts_total.
  unfold palette, results_unsorted. rewrite percentages_pct.
  fold (total (cluster_counts labels 1)). rewrite HT.
  unfold cluster_counts in *. cbn [seq map total foldr] in HT |- *.
  rewrite Nat.add_0_r in HT. rewrite HT.
  cbn [safe_flags length seq map zip3 sort_by foldr insert_by].
  eexists. split; [reflexivity|]. cbn [make_entry colorblind_safe frequency].
  split.
  - apply scan_models_true. intros mat j _ Hj Hne. simpl in Hj. lia.
  - apply round1_pct_all. lia.
Qed.

(** * Further properties of the script *)

(** ** Effects of a call *)

(** The state of the world after the report, by cases on what it does. *)
Ltac run_report :=
  unfold report, bind, when, print, lift, ret, write_file, plt_show;
  cbn [fs writable stdout shown].

(** X1.  A call changes no path of the file system but the two output paths,
    however it ends. *)
Theorem only_output_paths_written (a : args) (w : world) (p : string) :
  p <> txt_path a -> p <> fig_path a ->
  fs (snd (extract_colorblind_safe_palette a w)) !! p = fs w !! p.
Proof.
  intros Ht Hf.
  unfold extract_colorblind_safe_palette, bind, image_open, lift.
  destruct (fs w !! image_path a) as [[img0| | |]|]; try reflexivity.
  destruct (preprocess img0 (resize a)) as [img|]; try reflexivity.
  destruct (kmeans_fit_predict _ _ _ _) as [km|]; try reflexivity.
  run_report.
  destruct (save a), (plot a); cbn [fs writable stdout shown];
    repeat match goal with
    | |- context [if writable w ?q then _ else _] =>
        destruct (writable w q); cbn [fs writable stdout shown fst snd]
    | |- context [match plt_draw ?f with _ => _ end] =>
        destruct (plt_draw f) as [[]|]; cbn [fs writable stdout shown fst snd]
    end;
    rewrite ?lookup_insert_ne by congruence; reflexivity.
Qed.

(** X2.  Without [save] a call writes no file, whether it plots or not and
    however it ends. *)
Theorem no_save_writes_no_file (a : args) (w : world) :
  save a = false ->
  fs (snd (extract_colorblind_safe_palette a w)) = fs w.
Proof. apply extract_no_save_fs. Qed.

(** X3.  An exception of the resize or of the clustering is the exception of
    the call, and the world is as before: nothing is printed, written or
    shown. *)
Theorem failure_before_report_changes_nothing (a : args) (w : world)
  (img0 : image) (e : exn) :
  fs w !! image_path a = Some (ImageFile img0) ->
  preprocess img0 (resize a) = Raise e \/
  (exists img, preprocess img0 (resize a) = Ok img /\
     kmeans_fit_predict (n_colors a) 10 42 (pixels_of img) = Raise e) ->
  extract_colorblind_safe_palette a w = (Raise e, w).
Proof.
  intros Hfs H.
  unfold extract_colorblind_safe_palette, bind, image_open, lift.
  rewrite Hfs. destruct H as [Hpre|(img & Hpre & Hkm)].
  - now rewrite Hpre.
  - now rewrite Hpre, Hkm.
Qed.

(** X4.  An image of size 0 x 0 makes the scale a division by zero. *)
Theorem zero_size_image_raises (a : args) (w : world) (img0 : image) :
  fs w !! image_path a = Some (ImageFile img0) ->
  Z.max (img_w img0) (img_h img0) = 0 ->
  extract_colorblind_safe_palette a w = (Raise ZeroDivisionError, w).
Proof.
  intros Hfs H0.
  unfold extract_colorblind_safe_palette, bind, image_open, lift.
  rewrite Hfs. unfold preprocess, scaled_size. now rewrite H0.
Qed.

(** X5.  Once the image is loaded and clustered the table is printed, once,
    whatever [save] and [plot] are and whatever happens to the files and
    the figure afterwards. *)
Theorem summary_is_printed (a : args) (w : world) (img0 img : image)
  (labels : list nat) (colors : list color) :
  fs w !! image_path a = Some (ImageFile img0) ->
  preprocess img0 (resize a) = Ok img ->
  kmeans_fit_predict (n_colors a) 10 42 (pixels_of img)
    = Ok (labels, colors) ->
  stdout (snd (extract_colorblind_safe_palette a w))
  = stdout w
    ++ [join nl (summary_lines a
                   (palette colors labels (n_colors a) (deltaE_thresh a)))].
Proof.
  intros Hfs Hpre Hkm.
  unfold extract_colorblind_safe_palette, bind, image_open, lift.
  rewrite Hfs, Hpre, Hkm. cbn [fst snd]. run_report.
  destruct (save a), (plot a); cbn [fs writable stdout shown];
    repeat match goal with
    | |- context [if writable w ?q then _ else _] =>
        destruct (writable w q); cbn [fs writable stdout shown fst snd]
    | |- context [match plt_draw ?f with _ => _ end] =>
        destruct (plt_draw f) as [[]|]; cbn [fs writable stdout shown fst snd]
    end; reflexivity.
Qed.

(** X6.  With [save] and [plot], writable output paths and a figure that
    draws, the call returns the palette, both files hold the summary and
    the figure, and the figure is shown. *)
Theorem saved_and_plotted (a : args) (w : world) (img0 img : image)
  (labels : list nat) (colors : list color) :
  fs w !! image_path a = Some (ImageFile img0) ->
  preprocess img0 (resize a) = Ok img ->
  kmeans_fit_predict (n_colors a) 10 42 (pixels_of img)
    = Ok (labels, colors) ->
  save a = true -> plot a = true ->
  writable w (txt_path a) = true -> writable w (fig_path a) = true ->
  plt_draw (palette_figure img
              (palette colors labels (n_colors a) (deltaE_thresh a)))
    = Ok tt ->
  exists w',
    extract_colorblind_safe_palette a w
    = (Ok (palette colors labels (n_colors a) (deltaE_thresh a)), w') /\
    fs w' = <[fig_path a :=
                FigureFile
                  (palette_figure img
                     (palette colors labels (n_colors a) (deltaE_thresh a)))]>
              (<[txt_path a :=
                   summary_text a
                     (palette colors labels (n_colors a) (deltaE_thresh a))]>
                 (fs w)) /\
    shown w' = shown w
      ++ [palette_figure img
            (palette colors labels (n_colors a) (deltaE_thresh a))].
Proof.
  intros Hfs Hpre Hkm Hs Hp Ht Hf Hd.
  unfold extract_colorblind_safe_palette, bind, image_open, lift.
  rewrite Hfs, Hpre, Hkm. cbn [fst snd].
  unfold report, bind, when, print, lift, ret, write_file, plt_show.
  rewrite Hs, Hp. cbn [fs writable stdout shown]. rewrite Ht, Hd.
  cbn [fs writable stdout shown]. rewrite Hf.
  eexists. repeat split; reflexivity.
Qed.

(** X7.  With [save] and a text path that cannot be written the call raises
    [OSError] after the table is printed: no file is written, and the
    figure is neither drawn nor shown. *)
Theorem unwritable_text_path_aborts (a : args) (w : world)
  (img0 img : image) (labels : list nat) (colors : list color) :
  fs w !! image_path a = Some (ImageFile img0) ->
  preprocess img0 (resize a) = Ok img ->
  kmeans_fit_predict (n_colors a) 10 42 (pixels_of img)
    = Ok (labels, colors) ->
  save a = true ->
  writable w (txt_path a) = false ->
  exists w',
    extract_colorblind_safe_palette a w = (Raise OSError, w') /\
    fs w' = fs w /\ shown w' = shown w.
Proof.
  intros Hfs Hpre Hkm Hs Ht.
  unfold extract_colorblind_safe_palette, bind, image_open, lift.
  rewrite Hfs, Hpre, Hkm. cbn [fst snd].
  unfold report, bind, when, print, lift, ret, write_file, plt_show.
  rewrite Hs. cbn [fs writable stdout shown]. rewrite Ht.
  eexists. repeat split; reflexivity.
Qed.

(** ** The flags and the threshold *)

(** [np.linalg.norm] is not negative, and the norm of the zero vector is
    zero. *)
Hypothesis linalg_norm_nonneg : forall a : color, (0 <= linalg_norm a)%Q.
Hypothesis linalg_norm_zero : (linalg_norm (0, 0, 0)%Q == 0)%Q.

Lemma safe_flag_true (colors : list color) (thresh : Q) (i : nat) :
  nth_error (safe_flags colors thresh) i = Some true <->
  (i < length colors)%nat /\ scan_models colors thresh i CB_values = true.
Proof.
  rewrite safe_flags_nth_error.
  destruct (Nat.ltb_spec i (length colors)) as [Hlt|Hge].
  - split.
    + intros H. split; [exact Hlt | congruence].
    + intros [_ H]. congruence.
  - split; [discriminate | intros [Hlt _]; lia].
Qed.

Lemma safe_flag_false (colors : list color) (thresh : Q) (i : nat) :
  nth_error (safe_flags colors thresh) i = Some false <->
  (i < length colors)%nat /\ scan_models colors thresh i CB_values = false.
Proof.
  rewrite safe_flags_nth_error.
  destruct (Nat.ltb_spec i (length colors)) as [Hlt|Hge].
  - split.
    + intros H. split; [exact Hlt | congruence].
    + intros [_ H]. congruence.
  - split; [discriminate | intros [Hlt _]; lia].
Qed.

(** X8.  A colour that is safe at a threshold is safe at every lower one:
    lowering [deltaE_thresh] never turns a safe colour unsafe. *)
Theorem lower_threshold_keeps_safe (colors : list color) (t t' : Q)
  (i : nat) :
  (t' <= t)%Q ->
  nth_error (safe_flags colors t) i = Some true ->
  nth_error (safe_flags colors t') i = Some true.
Proof.
  intros Hle H. apply safe_flag_true in H. destruct H as [Hi H].
  apply safe_flag_true. split; [exact Hi|].
  apply scan_models_true. intros mat j Hmat Hj Hji.
  apply Qle_trans with (y := t); [exact Hle|].
  exact (proj1 (scan_models_true colors t i CB_values) H mat j Hmat Hj Hji).
Qed.

(** X9.  With a threshold of zero or less every colour is flagged safe, even
    equal ones. *)
Theorem nonpositive_threshold_flags_all_safe (colors : list color)
  (thresh : Q) :
  (thresh <= 0)%Q ->
  safe_flags colors thresh = repeat true (length colors).
Proof.
  intros Ht. unfold safe_flags.
  rewrite (map_ext_in _ (fun _ => true)).
  - assert (H : forall s : list nat,
               map (fun _ => true) s = repeat true (length s)).
    { induction s as [|k s IH]; simpl; [reflexivity | now rewrite IH]. }
    now rewrite H, length_seq.
  - intros i _. apply scan_models_true. intros mat j _ _ _.
    apply Qle_trans with (y := 0%Q); [exact Ht | apply linalg_norm_nonneg].
Qed.

Lemma row_sim_lab (colors : list color) (mat : matrix) (i : nat) (c : color) :
  nth_error colors i = Some c ->
  row (sim_lab_of colors mat) i = rgb2lab (simulate_cb c mat).
Proof.
  intros H. unfold row, sim_lab_of. rewrite map_map.
  apply nth_error_nth.
  now rewrite (map_nth_error (fun x => rgb2lab (simulate_cb x mat)) _ _ H).
Qed.

Lemma vsub_diag (a : color) : color_eq (vsub a a) (0, 0, 0)%Q.
Proof.
  destruct a as [[a0 a1] a2]. unfold color_eq, vsub, fsub. cbn [fst snd].
  assert (H : forall x : Q, (fl (x - x) == 0)%Q).
  { intros x. transitivity (fl 0); [apply fl_proper; ring | apply fl_0]. }
  auto.
Qed.

(** X10.  Two clusters with the same centre are both flagged unsafe at every
    positive threshold. *)
Theorem equal_centres_are_unsafe (colors : list color) (thresh : Q)
  (i j : nat) (c : color) :
  nth_error colors i = Some c ->
  nth_error colors j = Some c ->
  i <> j ->
  (0 < thresh)%Q ->
  nth_error (safe_flags colors thresh) i = Some false /\
  nth_error (safe_flags colors thresh) j = Some false.
Proof.
  intros Hi Hj Hij Ht.
  assert (Hil : (i < length colors)%nat) by (apply nth_error_Some; congruence).
  assert (Hjl : (j < length colors)%nat) by (apply nth_error_Some; congruence).
  assert (Hd : forall k l : nat,
             nth_error colors k = Some c -> nth_error colors l = Some c ->
             (deltaE (sim_lab_of colors protanopia) k l < thresh)%Q).
  { intros k l Hk Hl. unfold deltaE.
    rewrite (row_sim_lab _ _ _ _ Hk), (row_sim_lab _ _ _ _ Hl).
    rewrite (linalg_norm_proper _ _ (vsub_diag _)), linalg_norm_zero.
    exact Ht. }
  split; apply safe_flag_false; (split; [assumption|]);
    apply scan_models_false.
  - exists protanopia, j. repeat split; auto. now left.
  - exists protanopia, i. repeat split; auto. now left.
Qed.

(** X11.  An unsafe colour is never alone: the colour it is too close to is
    flagged unsafe as well. *)
Theorem unsafe_has_partner (colors : list color) (thresh : Q) (i : nat) :
  nth_error (safe_flags colors thresh) i = Some false ->
  exists j : nat,
    j <> i /\ nth_error (safe_flags colors thresh) j = Some false.
Proof.
  intros H. apply safe_flag_false in H. destruct H as [Hi H].
  apply scan_models_false in H. destruct H as (mat & j & Hmat & Hj & Hji & Hlt).
  exists j. split; [exact Hji|].
  apply safe_flag_false. split; [exact Hj|].
  apply scan_models_false. exists mat, i. repeat split; auto.
  now rewrite deltaE_sym.
Qed.

(** ** The frequencies of the clusters *)

Lemma rint_floor_bounds (x : Q) : Qfloor x <= rint x <= Qfloor x + 1.
Proof.
  unfold rint. destruct (Qltb _ _); [lia|].
  destruct (Qltb _ _); [lia|]. destruct (Z.even _); lia.
Qed.

Lemma rint_mono (x y : Q) : (x <= y)%Q -> rint x <= rint y.
Proof.
  intros Hxy. pose proof (Qfloor_resp_le _ _ Hxy) as Hf.
  destruct (Z.eq_dec (Qfloor x) (Qfloor y)) as [Heq|Hne].
  - unfold rint. rewrite <- Heq.
    set (f := Qfloor x) in *.
    destruct (Qltb (x - inject_Z f) (1 # 2)) eqn:Hx1.
    + destruct (Qltb (y - inject_Z f) (1 # 2)); [lia|].
      destruct (Qltb (1 # 2) (y - inject_Z f)); [lia|].
      destruct (Z.even f); lia.
    + apply Qltb_ge in Hx1.
      destruct (Qltb (y - inject_Z f) (1 # 2)) eqn:Hy1.
      { apply Qltb_lt in Hy1. lra. }
      destruct (Qltb (1 # 2) (x - inject_Z f)) eqn:Hx2.
      * apply Qltb_lt in Hx2.
        assert (Hy2 : Qltb (1 # 2) (y - inject_Z f) = true)
          by (apply Qltb_lt; lra).
        rewrite Hy2. lia.
      * destruct (Qltb (1 # 2) (y - inject_Z f)); destruct (Z.even f); lia.
  - pose proof (rint_floor_bounds x). pose proof (rint_floor_bounds y). lia.
Qed.

Lemma round1_mono (f g : Q) : (f <= g)%Q -> (round1 f <= round1 g)%Q.
Proof.
  intros H. unfold round1, fdiv, fmul. apply fl_mono.
  apply Qmult_le_compat_r; [|discriminate].
  rewrite <- Zle_Qle. apply rint_mono, fl_mono.
  apply Qmult_le_compat_r; [exact H | discriminate].
Qed.

Lemma pct_mono (T : Q) (c d : nat) :
  (0 < T)%Q -> (c <= d)%nat -> (pct T c <= pct T d)%Q.
Proof.
  intros HT Hcd. unfold pct, fmul, fdiv. apply fl_mono.
  apply Qmult_le_compat_r; [|discriminate]. apply fl_mono.
  apply Qmult_le_compat_r.
  - rewrite <- Zle_Qle. lia.
  - apply Qlt_le_weak, Qinv_lt_0_compat, HT.
Qed.

(** The frequency of the entry of cluster [i], from the labels. *)
Lemma results_unsorted_frequency (colors : list color) (labels : list nat)
  (n : nat) (thresh : Q) (i : nat) (e : entry) :
  nth_error (results_unsorted colors labels n thresh) i = Some e ->
  frequency e
  = round1 (pct (inject_Z (Z.of_nat (total (cluster_counts labels n))))
                (count_occ Nat.eq_dec labels i)).
Proof.
  intros H.
  destruct (results_unsorted_nth_error _ _ _ _ _ _ H) as (c & f & _ & Hf & ->).
  cbn [make_entry frequency]. f_equal.
  rewrite percentages_pct in Hf. fold (total (cluster_counts labels n)) in Hf.
  rewrite nth_error_map in Hf. unfold cluster_counts in Hf at 2.
  rewrite nth_error_map in Hf.
  destruct (nth_error (seq 0 n) i) as [k|] eqn:Hk; [|discriminate].
  cbn [option_map] in Hf. injection Hf as <-.
  assert (Hlt : (i < n)%nat).
  { rewrite <- (length_seq n 0). apply nth_error_Some. congruence. }
  rewrite nth_error_seq in Hk.
  rewrite (proj2 (Nat.ltb_lt _ _) Hlt) in Hk. injection Hk as <-.
  now rewrite counter_get_Counter.
Qed.

Lemma total_positive (labels : list nat) (n : nat) :
  Forall (fun l => (l < n)%nat) labels -> labels <> [] ->
  (0 < inject_Z (Z.of_nat (total (cluster_counts labels n))))%Q.
Proof.
  intros Hlt Hne. rewrite (cluster_counts_total _ _ Hlt).
  change 0%Q with (inject_Z 0). rewrite <- Zlt_Qlt.
  destruct labels; [congruence | simpl; lia].
Qed.

Lemma fl_eq_0 (x : Q) : (x == 0)%Q -> (fl x == 0)%Q.
Proof.
  intros H. transitivity (fl 0); [now apply fl_proper | apply fl_0].
Qed.

Lemma round1_pct_0 (T : Q) : (round1 (pct T 0) == 0)%Q.
Proof.
  unfold round1, pct, fmul, fdiv. change (inject_Z (Z.of_nat 0)) with 0%Q.
  assert (H1 : (fl (0 / T) == 0)%Q).
  { apply fl_eq_0. unfold Qdiv. ring. }
  assert (H2 : (fl (fl (0 / T) * 100) == 0)%Q).
  { apply fl_eq_0. rewrite H1. ring. }
  assert (H3 : (fl (fl (fl (0 / T) * 100) * 10) == inject_Z 0)%Q).
  { change (inject_Z 0) with 0%Q. apply fl_eq_0. rewrite H2. ring. }
  rewrite (rint_proper _ _ H3), rint_inject.
  apply fl_eq_0. reflexivity.
Qed.

(** X12.  A cluster that received no pixel has the frequency [0.0]. *)
Theorem empty_cluster_has_frequency_zero (colors : list color)
  (labels : list nat) (n : nat) (thresh : Q) (i : nat) (e : entry) :
  Forall (fun l => (l < n)%nat) labels -> labels <> [] ->
  nth_error (results_unsorted colors labels n thresh) i = Some e ->
  ~ In i labels ->
  (frequency e == 0)%Q.
Proof.
  intros _ _ He Hi. rewrite (results_unsorted_frequency _ _ _ _ _ _ He).
  rewrite (count_occ_not_In Nat.eq_dec labels i) in Hi. rewrite Hi.
  apply round1_pct_0.
Qed.

(** X13.  Every frequency is between 0 and 100. *)
Theorem frequency_between_0_and_100 (colors : list color)
  (labels : list nat) (n : nat) (thresh : Q) (i : nat) (e : entry) :
  Forall (fun l => (l < n)%nat) labels -> labels <> [] ->
  nth_error (results_unsorted colors labels n thresh) i = Some e ->
  (0 <= frequency e <= 100)%Q.
Proof.
  intros Hlt Hne He.
  pose proof (total_positive labels n Hlt Hne) as HT.
  rewrite (results_unsorted_frequency _ _ _ _ _ _ He).
  rewrite (cluster_counts_total _ _ Hlt) in *.
  assert (Hc : (count_occ Nat.eq_dec labels i <= length labels)%nat)
    by apply count_occ_bound.
  split.
  - rewrite <- (round1_pct_0 (inject_Z (Z.of_nat (length labels)))).
    apply round1_mono, pct_mono; [assumption | lia].
  - rewrite <- round1_pct_all with (T := length labels)
      by (destruct labels; [congruence | simpl; lia]).
    apply round1_mono, pct_mono; assumption.
Qed.

(** X14.  Frequencies follow cluster sizes: a cluster with at least as many
    pixels as another has at least its frequency, and an entry with a
    strictly higher frequency comes from a strictly larger cluster.
    Clusters of different sizes can round to the same frequency. *)
Theorem larger_cluster_has_larger_frequency (colors : list color)
  (labels : list nat) (n : nat) (thresh : Q) (i j : nat) (ei ej : entry) :
  Forall (fun l => (l < n)%nat) labels -> labels <> [] ->
  nth_error (results_unsorted colors labels n thresh) i = Some ei ->
  nth_error (results_unsorted colors labels n thresh) j = Some ej ->
  ((count_occ Nat.eq_dec labels i <= count_occ Nat.eq_dec labels j)%nat ->
   (frequency ei <= frequency ej)%Q) /\
  ((frequency ej < frequency ei)%Q ->
   (count_occ Nat.eq_dec labels j < count_occ Nat.eq_dec labels i)%nat).
Proof.
  intros Hlt Hne Hi Hj.
  assert (Hmono : (count_occ Nat.eq_dec labels i
                   <= count_occ Nat.eq_dec labels j)%nat ->
                  (frequency ei <= frequency ej)%Q).
  { intros Hc.
    rewrite (results_unsorted_frequency _ _ _ _ _ _ Hi).
    rewrite (results_unsorted_frequency _ _ _ _ _ _ Hj).
    apply round1_mono, pct_mono; [|exact Hc].
    now apply total_positive. }
  split; [exact Hmono|].
  intros Hf.
  destruct (Nat.le_gt_cases (count_occ Nat.eq_dec labels i)
              (count_occ Nat.eq_dec labels j)) as [Hc|Hc]; [|exact Hc].
  apply Hmono in Hc. lra.
Qed.

(** ** The sort *)

Lemma insert_by_filter {A} (key : A -> Q) (p : A -> bool) (x : A)
  (l : list A) :
  (forall a b, p a = true -> p b = true -> (key a == key b)%Q) ->
  List.filter p (insert_by key x l) = List.filter p (x :: l).
Proof.
  intros Hp. induction l as [|y l IH]; [reflexivity|].
  cbn [insert_by]. destruct (Qle_bool (key x) (key y)) eqn:Hxy;
    [reflexivity|].
  cbn [List.filter] in *. rewrite IH.
  destruct (p x) eqn:Hx, (p y) eqn:Hy; try reflexivity.
  exfalso. pose proof (Hp x y Hx Hy) as Heq.
  assert (Hle : Qle_bool (key x) (key y) = true).
  { apply Qle_bool_iff. rewrite Heq. apply Qle_refl. }
  congruence.
Qed.

Lemma sort_by_filter {A} (key : A -> Q) (p : A -> bool) (l : list A) :
  (forall a b, p a = true -> p b = true -> (key a == key b)%Q) ->
  List.filter p (sort_by key l) = List.filter p l.
Proof.
  intros Hp. induction l as [|x l IH]; [reflexivity|].
  unfold sort_by in *. cbn [foldr]. rewrite (insert_by_filter _ _ _ _ Hp).
  cbn [List.filter]. now rewrite IH.
Qed.

(** X15.  The sort only reorders the entries, and it is stable: the entries of
    one frequency are returned in the order of their clusters. *)
Theorem sort_permutes_and_keeps_ties (colors : list color)
  (labels : list nat) (n : nat) (thresh : Q) :
  Permutation (palette colors labels n thresh)
              (results_unsorted colors labels n thresh) /\
  forall k : Q,
    List.filter (fun e => Qeq_bool (frequency e) k)
           (palette colors labels n thresh)
    = List.filter (fun e => Qeq_bool (frequency e) k)
             (results_unsorted colors labels n thresh).
Proof.
  split; [apply sort_by_perm|].
  intros k. unfold palette. apply sort_by_filter.
  intros a b Ha Hb. apply Qeq_bool_iff in Ha, Hb. now rewrite Ha, Hb.
Qed.

(** ** The loader, again *)

(** X16.  The pixels handed to the clustering: one per pixel of the image,
    each channel in [[0,1]]. *)
Theorem pixels_are_normalised (img : image) :
  length (pixels_of img) = length (img_data img) /\
  Forall in_unit (pixels_of img).
Proof.
  split; [unfold pixels_of; apply length_map | apply pixels_in_unit].
Qed.

(** X17.  A long and thin image loses its shorter side: when twice the shorter
    side times the target does not reach the longer side, [int] truncates
    the new shorter side to 0. *)
Theorem thin_image_gets_zero_side (w h r : Z) :
  1 <= h -> 1 <= r -> 2 * h * r <= w -> w <= 2147483648 ->
  exists w' : Z,
    scaled_size w h (inject_Z r) = Ok (Some (w', 0)) /\
    r - 1 <= w' <= r.
Proof.
  intros Hh Hr Hthin Hw.
  assert (Hhw : h <= w) by nia.
  assert (Hrw : r < w) by nia.
  assert (Hmax : Z.max w h = w) by lia.
  assert (Hm0 : (w =? 0) = false) by (apply Z.eqb_neq; lia).
  assert (HW : (1 <= inject_Z w)%Q).
  { change 1%Q with (inject_Z 1). rewrite <- Zle_Qle. lia. }
  assert (HWb : (inject_Z w <= 2147483648)%Q).
  { change 2147483648%Q with (inject_Z 2147483648). now rewrite <- Zle_Qle. }
  assert (HR : (1 <= inject_Z r)%Q).
  { change 1%Q with (inject_Z 1). now rewrite <- Zle_Qle. }
  assert (HRW : (inject_Z r + 1 <= inject_Z w)%Q).
  { change 1%Q with (inject_Z 1). rewrite <- inject_Z_plus, <- Zle_Qle. lia. }
  assert (HH : (1 <= inject_Z h)%Q).
  { change 1%Q with (inject_Z 1). now rewrite <- Zle_Qle. }
  assert (HHW : (inject_Z h <= inject_Z w)%Q) by now rewrite <- Zle_Qle.
  assert (Hthin' : (2 * inject_Z h * inject_Z r <= inject_Z w)%Q).
  { change 2%Q with (inject_Z 2). rewrite <- !inject_Z_mult, <- Zle_Qle.
    exact Hthin. }
  exists (trunc (fmul (inject_Z w) (fdiv (inject_Z r) (inject_Z w)))).
  unfold scaled_size. rewrite Hmax, Hm0.
  rewrite quotient_in_range by (pose proof image_side_in_range; lra).
  rewrite scale_lt_1 by lra.
  destruct (scaled_dim_bounds w w r) as (_ & _ & Hw3); try lia.
  destruct (scaled_dim_close (inject_Z h) (inject_Z w) (inject_Z r))
    as (Hs0 & _ & Hy2); try lra.
  assert (Hq : (inject_Z h * (inject_Z r / inject_Z w) <= 1 # 2)%Q).
  { set (q := (inject_Z r / inject_Z w)%Q).
    assert (Hqw : (q * inject_Z w == inject_Z r)%Q) by (unfold q; field; lra).
    clearbody q. nra. }
  assert (Hh0 : trunc (fmul (inject_Z h) (fdiv (inject_Z r) (inject_Z w))) = 0).
  { assert (Hb : 0 <= trunc (fmul (inject_Z h)
                               (fdiv (inject_Z r) (inject_Z w))) <= 0).
    { apply trunc_floor_bounds.
      - apply fl_nonneg. nra.
      - apply fl_nonneg. nra.
      - change (inject_Z (0 + 1)) with 1%Q. lra. }
    lia. }
  rewrite Hh0. split; [reflexivity | now apply Hw3].
Qed.

(** ** Colour codes outside the byte range *)

Lemma length_zeros (n : nat) : String.length (zeros n) = n.
Proof. induction n as [|n IH]; simpl; [reflexivity | now rewrite IH]. Qed.

Lemma string_length_app (s t : string) :
  String.length (s ++ t)%string = (String.length s + String.length t)%nat.
Proof. induction s as [|a s IH]; simpl; [reflexivity | now rewrite IH]. Qed.

Lemma list_ascii_app (s t : string) :
  list_ascii_of_string (s ++ t)%string
  = (list_ascii_of_string s ++ list_ascii_of_string t)%list.
Proof. induction s as [|a s IH]; simpl; [reflexivity | now rewrite IH]. Qed.

Lemma hex_of_pos_length (fuel : nat) (n : Z) (acc : string) :
  (String.length acc <= String.length (hex_of_pos fuel n acc))%nat.
Proof.
  revert n acc. induction fuel as [|fuel IH]; intros n acc; simpl; [lia|].
  destruct (n / 16 =? 0); [simpl; lia|].
  specialize (IH (n / 16) (String (hex_digit (n mod 16)) acc)).
  simpl in IH. lia.
Qed.

Lemma hex_upper_long (n : Z) :
  256 <= n -> (3 <= String.length (hex_upper n))%nat.
Proof.
  intros Hn. unfold hex_upper.
  assert (Hlog : 8 <= Z.log2 n).
  { change 8 with (Z.log2 256). now apply Z.log2_le_mono. }
  destruct (Z.to_nat (Z.log2 n)) as [|[|f]] eqn:Hf; try lia.
  cbn [hex_of_pos].
  assert (H1 : (n / 16 =? 0) = false).
  { apply Z.eqb_neq. pose proof (Z.div_le_mono 256 n 16 ltac:(lia) Hn) as H.
    change (256 / 16) with 16 in H. lia. }
  assert (H2 : (n / 16 / 16 =? 0) = false).
  { apply Z.eqb_neq. pose proof (Z.div_le_mono 256 n 16 ltac:(lia) Hn) as H.
    change (256 / 16) with 16 in H.
    pose proof (Z.div_le_mono 16 (n / 16) 16 ltac:(lia) H) as H'.
    change (16 / 16) with 1 in H'. lia. }
  rewrite H1, H2.
  destruct (n / 16 / 16 / 16 =? 0); [simpl; lia|].
  match goal with
  | |- (3 <= String.length (hex_of_pos ?f ?m ?acc))%nat =>
      pose proof (hex_of_pos_length f m acc) as Hlen
  end.
  simpl in Hlen. lia.
Qed.

Lemma fmt_02X_length (z : Z) : (2 <= String.length (fmt_02X z))%nat.
Proof.
  unfold fmt_02X. rewrite !string_length_app, length_zeros. lia.
Qed.

Lemma fmt_02X_negative (z : Z) :
  z < 0 -> exists s, fmt_02X z = String "-"%char s.
Proof.
  intros Hz. unfold fmt_02X. rewrite (proj2 (Z.ltb_lt _ _) Hz).
  eexists. reflexivity.
Qed.

Lemma fmt_02X_long (z : Z) :
  256 <= z -> (3 <= String.length (fmt_02X z))%nat.
Proof.
  intros Hz. unfold fmt_02X. rewrite !string_length_app.
  rewrite Z.abs_eq by lia. pose proof (hex_upper_long z Hz). lia.
Qed.

(** A channel whose code has two characters, both hexadecimal digits, is
    a byte. *)
Lemma fmt_02X_byte (z : Z) :
  String.length (fmt_02X z) = 2%nat ->
  forallb is_upper_hex (list_ascii_of_string (fmt_02X z)) = true ->
  byte_range z.
Proof.
  intros Hlen Hhex. unfold byte_range.
  destruct (Z.ltb_spec z 0) as [Hneg|Hpos].
  - destruct (fmt_02X_negative z Hneg) as [s Hs]. rewrite Hs in Hhex.
    simpl in Hhex. discriminate.
  - destruct (Z.leb_spec 256 z) as [Hbig|Hsmall]; [|lia].
    pose proof (fmt_02X_long z Hbig). lia.
Qed.

(** X18.  The converse of the round trip: the code is [#] and six hexadecimal
    digits only when the three channels are bytes; a channel below 0 or
    above 255 is not clamped and gives a longer code or a minus sign. *)
Theorem hex_shape_iff_channels_are_bytes (c : Z * Z * Z) :
  hex_shape (hexcol c) = true <-> rgb_in_range c.
Proof.
  split; [|apply hexcol_ok].
  destruct c as [[r g] b]. unfold rgb_in_range, hexcol. cbn [fst snd].
  change ("#" ++ fmt_02X r ++ fmt_02X g ++ fmt_02X b)%string
    with (String "#"%char (fmt_02X r ++ fmt_02X g ++ fmt_02X b)%string).
  cbn [hex_shape]. intros H. apply andb_prop in H. destruct H as [Hlen Hhex].
  apply Nat.eqb_eq in Hlen. rewrite !string_length_app in Hlen.
  rewrite !list_ascii_app, !forallb_app in Hhex.
  apply andb_prop in Hhex. destruct Hhex as [Hr Hgb].
  apply andb_prop in Hgb. destruct Hgb as [Hg Hb].
  pose proof (fmt_02X_length r). pose proof (fmt_02X_length g).
  pose proof (fmt_02X_length b).
  repeat split; apply fmt_02X_byte; try assumption; lia.
Qed.

(** ** Calling twice *)

(** What a call that returns has found and done. *)
Lemma extract_ok_full (a : args) (w w' : world) (results : list entry) :
  extract_colorblind_safe_palette a w = (Ok results, w') ->
  exists img0 img labels colors,
    fs w !! image_path a = Some (ImageFile img0) /\
    preprocess img0 (resize a) = Ok img /\
    kmeans_fit_predict (n_colors a) 10 42 (pixels_of img)
      = Ok (labels, colors) /\
    results = palette colors labels (n_colors a) (deltaE_thresh a) /\
    (save a = true -> writable w (txt_path a) = true) /\
    (plot a = true -> plt_draw (palette_figure img results) = Ok tt) /\
    (save a = true -> plot a = true -> writable w (fig_path a) = true) /\
    writable w' = writable w /\
    fs w' = written a img results (fs w).
Proof.
  unfold extract_colorblind_safe_palette, bind, image_open, lift.
  destruct (fs w !! image_path a) as [[img0| | |]|] eqn:Hfs; try discriminate.
  destruct (preprocess img0 (resize a)) as [img|] eqn:Hpre; try discriminate.
  destruct (kmeans_fit_predict _ _ _ _) as [[labels colors]|] eqn:Hkm;
    try discriminate.
  cbn [fst snd]. unfold written.
  unfold report, bind, when, print, lift, ret, write_file, plt_show.
  destruct (save a), (plot a); cbn [fs writable stdout shown andb];
    repeat match goal with
    | |- context [if writable w ?q then _ else _] =>
        destruct (writable w q) eqn:?; cbn [fs writable stdout shown]
    | |- context [match plt_draw ?f with _ => _ end] =>
        destruct (plt_draw f) as [[]|] eqn:?; cbn [fs writable stdout shown]
    end;
    intros [= <- <-]; exists img0, img, labels, colors;
    cbn [fs writable stdout shown]; repeat split; auto; discriminate.
Qed.

(** A call returns when the image loads and clusters and the report
    meets no obstacle. *)
Lemma extract_ok_intro (a : args) (w : world) (img0 img : image)
  (labels : list nat) (colors : list color) (results : list entry) :
  fs w !! image_path a = Some (ImageFile img0) ->
  preprocess img0 (resize a) = Ok img ->
  kmeans_fit_predict (n_colors a) 10 42 (pixels_of img)
    = Ok (labels, colors) ->
  results = palette colors labels (n_colors a) (deltaE_thresh a) ->
  (save a = true -> writable w (txt_path a) = true) ->
  (plot a = true -> plt_draw (palette_figure img results) = Ok tt) ->
  (save a = true -> plot a = true -> writable w (fig_path a) = true) ->
  exists w',
    extract_colorblind_safe_palette a w = (Ok results, w') /\
    fs w' = written a img results (fs w).
Proof.
  intros Hfs Hpre Hkm -> Ht Hd Hf.
  unfold extract_colorblind_safe_palette, bind, image_open, lift.
  rewrite Hfs, Hpre, Hkm. cbn [fst snd]. unfold written.
  unfold report, bind, when, print, lift, ret, write_file, plt_show.
  destruct (save a), (plot a); cbn [fs writable stdout shown andb];
    rewrite ?(Ht eq_refl), ?(Hd eq_refl); cbn [fs writable stdout shown];
    rewrite ?(Hf eq_refl eq_refl); eexists; split; reflexivity.
Qed.

Lemma written_twice (a : args) (img : image) (results : list entry)
  (files : gmap string file) :
  written a img results (written a img results files)
  = written a img results files.
Proof.
  unfold written. destruct (save a), (plot a); cbn [andb]; try reflexivity.
  - apply map_eq. intros q.
    destruct (decide (q = fig_path a)) as [->|Hf];
      [now rewrite !lookup_insert_eq|].
    destruct (decide (q = txt_path a)) as [->|Ht].
    + rewrite !(lookup_insert_ne _ (fig_path a) (txt_path a)) by congruence.
      now rewrite !lookup_insert_eq.
    + now rewrite !lookup_insert_ne by congruence.
  - apply insert_insert_eq.
Qed.

Lemma written_other (a : args) (img : image) (results : list entry)
  (files : gmap string file) (p : string) :
  p <> txt_path a -> p <> fig_path a ->
  written a img results files !! p = files !! p.
Proof.
  intros Ht Hf. unfold written.
  destruct (save a), (plot a); cbn [andb];
    rewrite ?lookup_insert_ne by congruence; reflexivity.
Qed.

(** X19.  When the outputs do not overwrite the image, a call that returned
    can be repeated: the second call returns the same list and leaves the
    files as the first call left them. *)
Theorem second_call_repeats_the_first (a : args) (w w1 : world)
  (results : list entry) :
  image_path a <> txt_path a ->
  image_path a <> fig_path a ->
  extract_colorblind_safe_palette a w = (Ok results, w1) ->
  exists w2,
    extract_colorblind_safe_palette a w1 = (Ok results, w2) /\
    fs w2 = fs w1.
Proof.
  intros Hit Hif H. apply extract_ok_full in H.
  destruct H as (img0 & img & labels & colors & Hfs & Hpre & Hkm & Hres
                 & Ht & Hd & Hf & Hw & Hfs1).
  destruct (extract_ok_intro a w1 img0 img labels colors results)
    as (w2 & Hrun & Hfs2); try assumption.
  - rewrite Hfs1, written_other by assumption. exact Hfs.
  - now rewrite Hw.
  - now rewrite Hw.
  - exists w2. split; [exact Hrun|].
    now rewrite Hfs2, Hfs1, written_twice.
Qed.

(** ** The table *)

Lemma length_spaces (n : nat) : String.length (spaces n) = n.
Proof. induction n as [|n IH]; simpl; [reflexivity | now rewrite IH]. Qed.

(** The paddings of the format specifications fill up to the width and
    never cut. *)
Lemma ljust_length (n : nat) (s : string) :
  String.length (ljust n s) = Nat.max n (String.length s).
Proof. unfold ljust. rewrite string_length_app, length_spaces. lia. Qed.

Lemma rjust_length (n : nat) (s : string) :
  String.length (rjust n s) = Nat.max n (String.length s).
Proof. unfold rjust. rewrite string_length_app, length_spaces. lia. Qed.

(** X20.  The rows of entries whose texts fit their columns have one length,
    safe or not: the table is aligned. *)
Theorem table_rows_are_aligned (r1 r2 : entry) :
  fits_columns r1 -> fits_columns r2 ->
  String.length (table_row r1) = String.length (table_row r2).
Proof.
  intros (Hh1 & Hr1 & Hf1) (Hh2 & Hr2 & Hf2). unfold table_row.
  rewrite !string_length_app, !ljust_length, !rjust_length.
  destruct (colorblind_safe r1), (colorblind_safe r2); simpl; lia.
Qed.

End Script.

(** * The theorems on the concrete instance *)

(** ** The instance meets the hypotheses *)

Lemma exact_fl_proper (x y : Q) : (x == y)%Q -> (exact_fl x == exact_fl y)%Q.
Proof. exact (fun H => H). Qed.

Lemma exact_fl_mono (x y : Q) : (x <= y)%Q -> (exact_fl x <= exact_fl y)%Q.
Proof. exact (fun H => H). Qed.

Lemma exact_fl_int (z : Z) :
  Z.abs z <= 2 ^ 53 -> (exact_fl (inject_Z z) == inject_Z z)%Q.
Proof. intros _. reflexivity. Qed.

Lemma exact_fl_err (x : Q) :
  (Qabs x <= fl_range)%Q ->
  (Qabs (exact_fl x - x) <= eps * (Qabs x + 1))%Q.
Proof.
  intros _. unfold exact_fl.
  assert (H0 : (x - x == 0)%Q) by ring. rewrite H0.
  pose proof (Qabs_nonneg x) as Hx.
  assert (He : (0 < eps)%Q) by reflexivity.
  change (Qabs 0) with 0%Q. generalize dependent eps. intros e **. nra.
Qed.

Lemma exact_fl_odd (x : Q) : (exact_fl (- x) == - exact_fl x)%Q.
Proof. reflexivity. Qed.


Lemma taxicab_norm_proper (a b : color) :
  color_eq a b -> (taxicab_norm a == taxicab_norm b)%Q.
Proof.
  destruct a as [[a0 a1] a2], b as [[b0 b1] b2].
  unfold color_eq, taxicab_norm. cbn [fst snd].
  intros (H0 & H1 & H2). rewrite H0, H1, H2. reflexivity.
Qed.

Lemma taxicab_norm_neg (a : color) :
  (taxicab_norm (vneg a) == taxicab_norm a)%Q.
Proof.
  destruct a as [[a0 a1] a2]. unfold vneg, taxicab_norm. cbn [fst snd].
  rewrite !Qabs_opp. reflexivity.
Qed.

Lemma round_robin_shape (n n_init : nat) (seed : Z) (pixels : list color)
  (labels : list nat) (centers : list color) :
  round_robin_clusters n n_init seed pixels = Ok (labels, centers) ->
  length centers = n /\
  length labels = length pixels /\
  Forall (fun l => (l < n)%nat) labels /\
  (1 <= n <= length pixels)%nat.
Proof.
  unfold round_robin_clusters.
  destruct (Nat.leb 1 n && Nat.leb n (length pixels))%bool eqn:Hc;
    [|discriminate].
  apply andb_prop in Hc. destruct Hc as [H1 H2].
  apply Nat.leb_le in H1, H2. intros [= <- <-].
  repeat split; try lia.
  - rewrite length_firstn. lia.
  - now rewrite length_map, length_seq.
  - apply List.Forall_forall. intros l Hl. apply in_map_iff in Hl.
    destruct Hl as (k & <- & _). apply Nat.mod_upper_bound. lia.
Qed.

Lemma in_unit_near (c : color) : in_unit c -> near_unit c.
Proof. unfold in_unit, near_unit, near_01. intros (? & ? & ?). repeat split; lra. Qed.

Lemma round_robin_centers_near_unit (n n_init : nat) (seed : Z)
  (pixels : list color) (labels : list nat) (centers : list color) :
  round_robin_clusters n n_init seed pixels = Ok (labels, centers) ->
  Forall in_unit pixels -> Forall near_unit centers.
Proof.
  unfold round_robin_clusters.
  destruct (Nat.leb 1 n && Nat.leb n (length pixels))%bool; [|discriminate].
  intros [= <- <-] H. apply Forall_take.
  eapply Forall_impl; [exact H|]. exact in_unit_near.
Qed.

(** ** The theorems at concrete inputs *)

Local Abbreviation run draw :=
  (extract_colorblind_safe_palette exact_fl crop_resize round_robin_clusters
     linear_lab taxicab_norm same_path here same_path slash_join
     no_rgb_text no_float_text draw).

(** With binary64 rounding a 539 x 100 image and the target 400 give the
    scale [400 / 539], whose product with 539 rounds below 400: the new
    size is 399 x 74. *)
Example resize_539_by_100 :
  scaled_size binary64 539 100 400 = Ok (Some (399, 74)).
Proof. vm_compute. reflexivity. Qed.

(** An integer target whose quotient by the longer side is beyond the
    float range makes the division raise. *)
Example resize_beyond_float_range :
  scaled_size binary64 800 600 (inject_Z (10 ^ 400)) = Raise OverflowError.
Proof. vm_compute. reflexivity. Qed.



(** The palette of two black centres with the threshold 0. *)
Local Abbreviation black_pair :=
  (palette exact_fl linear_lab taxicab_norm [(0, 0, 0); (0, 0, 0)]%Q
           [0; 1]%nat 2 0).

Lemma safe_flag_iff_no_distance_below_witness :
  exists e i,
    In e black_pair /\
    nth_error (results_unsorted exact_fl linear_lab taxicab_norm
                 [(0, 0, 0); (0, 0, 0)]%Q [0; 1]%nat 2 0) i = Some e /\
    (colorblind_safe e = false <->
     exists mat j, In mat CB_values /\ (j < 2)%nat /\ j <> i /\
       (deltaE exact_fl taxicab_norm
          (sim_lab_of exact_fl linear_lab [(0, 0, 0); (0, 0, 0)]%Q mat) i j
        < 0)%Q).
Proof.
  remember black_pair as p eqn:Hp.
  destruct p as [|e l]; [vm_compute in Hp; discriminate|].
  assert (Hin : In e black_pair) by (rewrite <- Hp; now left).
  destruct (safe_flag_iff_no_distance_below exact_fl linear_lab taxicab_norm
              _ _ _ _ e Hin) as (i & Hi & _ & Hfalse).
  exists e, i. split; [now left | split; [exact Hi | exact Hfalse]].
Defined.

(** The claim of C1 with "exceeds" fails where a distance equals the
    threshold: two black centres are at distance 0 under every matrix,
    with the threshold 0 no distance is below it, and both entries are
    flagged safe although no distance exceeds the threshold.  (At this
    input the stand-ins agree with the libraries: the Lab value of black
    is the zero vector, and so is the difference of two equal vectors.) *)
Lemma equal_distance_keeps_safe :
  ~ (forall e : entry,
       In e black_pair ->
       exists i : nat,
         nth_error (results_unsorted exact_fl linear_lab taxicab_norm
                      [(0, 0, 0); (0, 0, 0)]%Q [0; 1]%nat 2 0) i = Some e /\
         (colorblind_safe e = true <->
          forall mat j, In mat CB_values -> (j < 2)%nat -> j <> i ->
            (0 < deltaE exact_fl taxicab_norm
                   (sim_lab_of exact_fl linear_lab
                      [(0, 0, 0); (0, 0, 0)]%Q mat) i j)%Q)).
Proof.
  intros H.
  remember black_pair as p eqn:Hp.
  destruct p as [|e l]; [vm_compute in Hp; discriminate|].
  destruct (H e (or_introl eq_refl)) as (i & Hi & Hiff).
  assert (Hsafe : colorblind_safe e = true).
  { vm_compute in Hp. now injection Hp as -> _. }
  pose proof (proj1 Hiff Hsafe protanopia) as Hd.
  assert (Hpro : In protanopia CB_values) by (now left).
  destruct i as [|[|i]].
  - specialize (Hd 1%nat Hpro ltac:(lia) ltac:(lia)).
    vm_compute in Hd. discriminate.
  - specialize (Hd 0%nat Hpro ltac:(lia) ltac:(lia)).
    vm_compute in Hd. discriminate.
  - destruct i; vm_compute in Hi; discriminate.
Qed.

Lemma unsafe_is_symmetric_witness :
  exists ei ej : entry,
    nth_error (results_unsorted exact_fl linear_lab taxicab_norm
                 [(0, 0, 0); (0, 0, 0)]%Q [0; 1]%nat 2 10) 0 = Some ei /\
    nth_error (results_unsorted exact_fl linear_lab taxicab_norm
                 [(0, 0, 0); (0, 0, 0)]%Q [0; 1]%nat 2 10) 1 = Some ej /\
    colorblind_safe ei = false /\ colorblind_safe ej = false.
Proof.
  eexists. eexists. split; [reflexivity|]. split; [reflexivity|].
  apply (unsafe_is_symmetric exact_fl linear_lab taxicab_norm
           exact_fl_proper exact_fl_odd taxicab_norm_proper taxicab_norm_neg
           [(0, 0, 0); (0, 0, 0)]%Q [0; 1]%nat 2 10 0 1 _ _ protanopia).
  - reflexivity.
  - reflexivity.
  - discriminate.
  - now left.
  - vm_compute. reflexivity.
Defined.

Lemma returns_n_colors_entries_witness :
  exists results w',
    run draw_ok (quiet_args 2 10) (disk two_tone) = (Ok results, w') /\
    length results = 2%nat.
Proof.
  destruct (run draw_ok (quiet_args 2 10) (disk two_tone))
    as [[results|e] w'] eqn:H; [|vm_compute in H; discriminate].
  exists results, w'. split; [reflexivity|].
  exact (returns_n_colors_entries exact_fl crop_resize round_robin_clusters
           linear_lab taxicab_norm same_path here same_path slash_join
           no_rgb_text no_float_text draw_ok round_robin_shape
           (quiet_args 2 10) (disk two_tone) w' results H).
Defined.

Lemma frequencies_sum_to_100_witness :
  exists results w',
    run draw_ok (quiet_args 3 10) (disk two_tone) = (Ok results, w') /\
    Forall (fun e => (0 <= frequency e)%Q) results /\
    (Qabs (Qsum (map frequency results) - 100)
       <= inject_Z (Z.of_nat (length results)) * (1 # 10))%Q.
Proof.
  destruct (run draw_ok (quiet_args 3 10) (disk two_tone))
    as [[results|e] w'] eqn:H; [|vm_compute in H; discriminate].
  exists results, w'. split; [reflexivity|].
  exact (frequencies_sum_to_100 exact_fl crop_resize round_robin_clusters
           linear_lab taxicab_norm same_path here same_path slash_join
           no_rgb_text no_float_text draw_ok exact_fl_mono exact_fl_int
           exact_fl_err round_robin_shape
           (quiet_args 3 10) (disk two_tone) w' results H).
Defined.

Lemma hex_matches_rgb_witness :
  exists results w' e,
    run draw_ok (quiet_args 2 10) (disk two_tone) = (Ok results, w') /\
    In e results /\
    hex_shape (hex e) = true /\ hex_decode (hex e) = Some (rgb e).
Proof.
  destruct (run draw_ok (quiet_args 2 10) (disk two_tone))
    as [[[|e results]|ex] w'] eqn:H; try (vm_compute in H; discriminate).
  exists (e :: results), w', e. split; [reflexivity|].
  split; [now left|].
  exact (hex_matches_rgb exact_fl crop_resize round_robin_clusters
           linear_lab taxicab_norm same_path here same_path slash_join
           no_rgb_text no_float_text draw_ok exact_fl_mono exact_fl_int
           exact_fl_err round_robin_centers_near_unit
           (quiet_args 2 10) (disk two_tone) w' (e :: results) e H
           (or_introl eq_refl)).
Defined.

Lemma two_quiet_calls_agree_witness :
  exists r1 w1 r2 w2,
    run draw_ok (quiet_args 2 10) (disk two_tone) = (r1, w1) /\
    run draw_ok (quiet_args 2 10) w1 = (r2, w2) /\
    r1 = r2.
Proof.
  destruct (run draw_ok (quiet_args 2 10) (disk two_tone)) as [r1 w1] eqn:H1.
  destruct (run draw_ok (quiet_args 2 10) w1) as [r2 w2] eqn:H2.
  exists r1, w1, r2, w2. split; [reflexivity|]. split; [exact H2|].
  exact (two_quiet_calls_agree exact_fl crop_resize round_robin_clusters
           linear_lab taxicab_norm same_path here same_path slash_join
           no_rgb_text no_float_text draw_ok
           (quiet_args 2 10) (disk two_tone) w1 w2 r1 r2
           eq_refl eq_refl H1 H2).
Defined.

Lemma returned_list_shape_witness :
  exists results w',
    run draw_ok (loud_args 3 10) (disk two_tone) = (Ok results, w') /\
    length results = 3%nat /\
    (exists w0,
       run draw_ok (with_flags (loud_args 3 10) false false) (disk two_tone)
       = (Ok results, w0)) /\
    (forall w2 results2,
       run draw_ok (with_flags (loud_args 3 10) false false) (disk two_tone)
       = (Ok results2, w2) -> results2 = results) /\
    descending results.
Proof.
  destruct (run draw_ok (loud_args 3 10) (disk two_tone))
    as [[results|e] w'] eqn:H; [|vm_compute in H; discriminate].
  exists results, w'. split; [reflexivity|].
  destruct (returned_list_shape exact_fl crop_resize round_robin_clusters
              linear_lab taxicab_norm same_path here same_path slash_join
              no_rgb_text no_float_text draw_ok exact_fl_mono exact_fl_int
              exact_fl_err round_robin_shape round_robin_centers_near_unit
              (loud_args 3 10) (disk two_tone) w' results H)
    as (Hlen & _ & Hquiet & Hflags & Hdesc & _).
  split; [exact Hlen|]. split; [exact Hquiet|].
  split; [exact (Hflags false false) | exact Hdesc].
Defined.

Lemma single_cluster_is_safe_and_full_witness :
  exists results w' e,
    run draw_ok (quiet_args 1 10) (disk two_tone) = (Ok results, w') /\
    results = [e] /\ colorblind_safe e = true /\ (frequency e == 100)%Q.
Proof.
  destruct (run draw_ok (quiet_args 1 10) (disk two_tone))
    as [[results|ex] w'] eqn:H; [|vm_compute in H; discriminate].
  destruct (single_cluster_is_safe_and_full exact_fl crop_resize
              round_robin_clusters linear_lab taxicab_norm same_path here
              same_path slash_join no_rgb_text no_float_text draw_ok
              exact_fl_proper exact_fl_int round_robin_shape
              (quiet_args 1 10) (disk two_tone) w' results eq_refl H)
    as (e & He & Hsafe & Hfreq).
  exists results, w', e. auto.
Defined.

Lemma outputs_not_atomic_witness :
  (exists w' text,
     run draw_fails (loud_args 2 10) (disk two_tone)
     = (Raise RuntimeError, w') /\
     fs w' !! "./flower.jpg_palette.txt"%string = Some (TextFile text) /\
     fs w' !! "./flower.jpg_palette.png"%string = None) /\
  (exists w' text,
     run draw_ok (loud_args 2 10) (locked_disk two_tone)
     = (Raise OSError, w') /\
     fs w' !! "./flower.jpg_palette.txt"%string = Some (TextFile text) /\
     fs w' !! "./flower.jpg_palette.png"%string = None).
Proof.
  split.
  - destruct (proj2 (load_failure_writes_nothing_but_outputs_not_atomic
                       exact_fl crop_resize round_robin_clusters linear_lab
                       taxicab_norm same_path here same_path slash_join
                       no_rgb_text no_float_text draw_fails
                       (loud_args 2 10) (disk two_tone))
                    two_tone two_tone _ _
                    eq_refl eq_refl eq_refl eq_refl eq_refl eq_refl)
      as [Hfail _].
    destruct (Hfail RuntimeError eq_refl) as (w' & Hrun & Hfs).
    exists w'. eexists. split; [exact Hrun|]. rewrite Hfs. split.
    + apply lookup_insert_eq.
    + reflexivity.
  - destruct (proj2 (load_failure_writes_nothing_but_outputs_not_atomic
                       exact_fl crop_resize round_robin_clusters linear_lab
                       taxicab_norm same_path here same_path slash_join
                       no_rgb_text no_float_text draw_ok
                       (loud_args 2 10) (locked_disk two_tone))
                    two_tone two_tone _ _
                    eq_refl eq_refl eq_refl eq_refl eq_refl eq_refl)
      as [_ Hlock].
    destruct (Hlock eq_refl eq_refl) as (w' & Hrun & Hfs).
    exists w'. eexists. split; [exact Hrun|]. rewrite Hfs. split.
    + apply lookup_insert_eq.
    + reflexivity.
Defined.

(** ** The further properties at concrete inputs *)

Lemma taxicab_norm_nonneg (a : color) : (0 <= taxicab_norm a)%Q.
Proof.
  destruct a as [[a0 a1] a2]. unfold taxicab_norm.
  pose proof (Qabs_nonneg a0). pose proof (Qabs_nonneg a1).
  pose proof (Qabs_nonneg a2). lra.
Qed.

Lemma taxicab_norm_zero : (taxicab_norm (0, 0, 0)%Q == 0)%Q.
Proof. reflexivity. Qed.

Local Abbreviation at_run thm draw :=
  (thm exact_fl crop_resize round_robin_clusters linear_lab taxicab_norm
       same_path here same_path slash_join no_rgb_text no_float_text draw).

Local Abbreviation red_blue := ([(1, 0, 0); (0, 0, 1)]%Q : list color).
Local Abbreviation two_blacks := ([(0, 0, 0); (0, 0, 0)]%Q : list color).
Local Abbreviation flags colors thresh :=
  (safe_flags exact_fl linear_lab taxicab_norm colors thresh).
Local Abbreviation entries colors labels n thresh :=
  (results_unsorted exact_fl linear_lab taxicab_norm colors labels n thresh).

Lemma only_output_paths_written_witness :
  fs (snd (run draw_ok (loud_args 2 10) (disk two_tone)))
    !! "flower.jpg"%string
  = Some (ImageFile two_tone).
Proof.
  rewrite (at_run only_output_paths_written draw_ok (loud_args 2 10)
             (disk two_tone) "flower.jpg"%string).
  - reflexivity.
  - vm_compute. discriminate.
  - vm_compute. discriminate.
Defined.

Lemma no_save_writes_no_file_witness :
  fs (snd (run draw_fails (with_flags (loud_args 2 10) false true)
             (disk two_tone)))
  = fs (disk two_tone).
Proof.
  exact (at_run no_save_writes_no_file draw_fails
           (with_flags (loud_args 2 10) false true) (disk two_tone) eq_refl).
Defined.

Lemma failure_before_report_changes_nothing_witness :
  run draw_ok (loud_args 5 10) (disk two_tone)
  = (Raise ValueError, disk two_tone).
Proof.
  apply (at_run failure_before_report_changes_nothing draw_ok
           (loud_args 5 10) (disk two_tone) two_tone ValueError).
  - reflexivity.
  - right. exists two_tone. split; reflexivity.
Defined.

Lemma zero_size_image_raises_witness :
  run draw_ok (loud_args 2 10) (disk empty_image)
  = (Raise ZeroDivisionError, disk empty_image).
Proof.
  apply (at_run zero_size_image_raises draw_ok (loud_args 2 10)
           (disk empty_image) empty_image); reflexivity.
Defined.

Lemma summary_is_printed_witness :
  length (stdout (snd (run draw_fails (loud_args 2 10) (disk two_tone))))
  = 1%nat.
Proof.
  rewrite (at_run summary_is_printed draw_fails (loud_args 2 10)
             (disk two_tone) two_tone two_tone
             [0; 1; 0; 1]%nat
             (firstn 2 (pixels_of exact_fl two_tone)));
    reflexivity.
Defined.

Lemma saved_and_plotted_witness :
  exists results w' fig,
    run draw_ok (loud_args 2 10) (disk two_tone) = (Ok results, w') /\
    fs w' !! "./flower.jpg_palette.png"%string = Some (FigureFile fig) /\
    shown w' = [fig].
Proof.
  destruct (at_run saved_and_plotted draw_ok (loud_args 2 10)
              (disk two_tone) two_tone two_tone
              [0; 1; 0; 1]%nat
              (firstn 2 (pixels_of exact_fl two_tone))
              eq_refl eq_refl eq_refl eq_refl eq_refl eq_refl eq_refl eq_refl)
    as (w' & Hrun & Hfs & Hshown).
  eexists. exists w'. eexists. split; [exact Hrun|]. split.
  - rewrite Hfs. apply lookup_insert_eq.
  - rewrite Hshown. reflexivity.
Defined.

Lemma unwritable_text_path_aborts_witness :
  exists w',
    run draw_ok (loud_args 2 10) (read_only_disk two_tone)
    = (Raise OSError, w') /\
    fs w' = fs (read_only_disk two_tone) /\ shown w' = [].
Proof.
  exact (at_run unwritable_text_path_aborts draw_ok (loud_args 2 10)
           (read_only_disk two_tone) two_tone two_tone
           [0; 1; 0; 1]%nat
           (firstn 2 (pixels_of exact_fl two_tone))
           eq_refl eq_refl eq_refl eq_refl eq_refl).
Defined.

Lemma lower_threshold_keeps_safe_witness :
  nth_error (flags red_blue 5) 0 = Some true.
Proof.
  apply (lower_threshold_keeps_safe exact_fl linear_lab taxicab_norm
           red_blue 10 5 0).
  - vm_compute. discriminate.
  - vm_compute. reflexivity.
Defined.

Lemma nonpositive_threshold_flags_all_safe_witness :
  flags two_blacks 0 = [true; true].
Proof.
  apply (nonpositive_threshold_flags_all_safe exact_fl linear_lab
           taxicab_norm taxicab_norm_nonneg two_blacks 0).
  vm_compute. discriminate.
Defined.

Lemma equal_centres_are_unsafe_witness :
  nth_error (flags two_blacks 10) 0 = Some false /\
  nth_error (flags two_blacks 10) 1 = Some false.
Proof.
  apply (equal_centres_are_unsafe exact_fl linear_lab taxicab_norm
           exact_fl_proper exact_fl_int taxicab_norm_proper
           taxicab_norm_zero two_blacks 10 0 1 (0, 0, 0)%Q).
  - reflexivity.
  - reflexivity.
  - discriminate.
  - reflexivity.
Defined.

Lemma unsafe_has_partner_witness :
  exists j : nat,
    j <> 0%nat /\ nth_error (flags two_blacks 10) j = Some false.
Proof.
  apply (unsafe_has_partner exact_fl linear_lab taxicab_norm
           exact_fl_proper exact_fl_odd taxicab_norm_proper taxicab_norm_neg
           two_blacks 10 0).
  vm_compute. reflexivity.
Defined.

Lemma empty_cluster_has_frequency_zero_witness :
  exists e : entry,
    nth_error (entries red_blue [0; 0]%nat 2 10) 1 = Some e /\
    (frequency e == 0)%Q.
Proof.
  eexists. split; [reflexivity|].
  apply (empty_cluster_has_frequency_zero exact_fl linear_lab taxicab_norm
           exact_fl_proper exact_fl_int red_blue [0; 0]%nat 2 10 1).
  - repeat constructor.
  - discriminate.
  - reflexivity.
  - intros [H|[H|[]]]; discriminate H.
Defined.

Lemma frequency_between_0_and_100_witness :
  exists e : entry,
    nth_error (entries red_blue [0; 1; 1]%nat 2 10) 0 = Some e /\
    (0 <= frequency e <= 100)%Q.
Proof.
  eexists. split; [reflexivity|].
  apply (frequency_between_0_and_100 exact_fl linear_lab taxicab_norm
           exact_fl_proper exact_fl_mono exact_fl_int
           red_blue [0; 1; 1]%nat 2 10 0).
  - repeat constructor.
  - discriminate.
  - reflexivity.
Defined.

Lemma larger_cluster_has_larger_frequency_witness :
  exists ei ej : entry,
    nth_error (entries red_blue [0; 1; 1]%nat 2 10) 0 = Some ei /\
    nth_error (entries red_blue [0; 1; 1]%nat 2 10) 1 = Some ej /\
    (frequency ei <= frequency ej)%Q.
Proof.
  eexists. eexists. split; [reflexivity|]. split; [reflexivity|].
  refine (proj1 (larger_cluster_has_larger_frequency exact_fl linear_lab
                   taxicab_norm exact_fl_mono red_blue [0; 1; 1]%nat 2 10
                   0 1 _ _ _ _ eq_refl eq_refl) _).
  - repeat constructor.
  - discriminate.
  - vm_compute. repeat constructor.
Defined.

Lemma thin_image_gets_zero_side_witness :
  exists w' : Z,
    scaled_size exact_fl 1000 1 (inject_Z 400) = Ok (Some (w', 0)) /\
    399 <= w' <= 400.
Proof.
  apply (thin_image_gets_zero_side exact_fl exact_fl_mono exact_fl_int
           exact_fl_err 1000 1 400); lia.
Defined.

Lemma second_call_repeats_the_first_witness :
  exists results w1 w2,
    run draw_ok (loud_args 2 10) (disk two_tone) = (Ok results, w1) /\
    run draw_ok (loud_args 2 10) w1 = (Ok results, w2) /\
    fs w2 = fs w1.
Proof.
  destruct (run draw_ok (loud_args 2 10) (disk two_tone))
    as [[results|e] w1] eqn:H; [|vm_compute in H; discriminate].
  destruct (at_run second_call_repeats_the_first draw_ok (loud_args 2 10)
              (disk two_tone) w1 results)
    as (w2 & Hrun & Hfs).
  - vm_compute. discriminate.
  - vm_compute. discriminate.
  - exact H.
  - exists results, w1, w2. auto.
Defined.

Lemma table_rows_are_aligned_witness :
  String.length
    (table_row no_rgb_text no_float_text
       {| hex := "#FF0000"; rgb := (255, 0, 0); frequency := 50;
          colorblind_safe := true |})
  = String.length
      (table_row no_rgb_text no_float_text
         {| hex := "#0000FF"; rgb := (0, 0, 255); frequency := 50;
            colorblind_safe := false |}).
Proof.
  apply (table_rows_are_aligned no_rgb_text no_float_text);
    repeat split; simpl; lia.
Defined.

Lemma pixels_are_normalised_witness :
  length (pixels_of exact_fl two_tone) = 4%nat /\
  Forall in_unit (pixels_of exact_fl two_tone).
Proof.
  exact (pixels_are_normalised exact_fl exact_fl_mono exact_fl_int two_tone).
Defined.
